(** * LS-8 emulator: a shallow embedding of [cpu_sprint.py] and [ls8_sprint.py]

    The machine state of class [CPU] becomes a record, every method becomes a
    computation in a small state-and-exception monad, and Python's list
    indexing (negative indices count from the end, anything else out of
    range raises [IndexError]) is written out.  Python integers are
    unbounded, so registers, memory cells and the program counter are [Z]. *)

From Stdlib Require Import ZArith Lia Bool Ascii String.
From stdpp Require Import base option list gmap strings.

Open Scope Z_scope.

(** ** Opcodes (cpu_sprint.py, lines 5-25) *)

Definition ADD  : Z := 0xA0.  (* 0b10100000 *)
Definition AND  : Z := 0xA8.  (* 0b10101000 *)
Definition CALL : Z := 0x50.  (* 0b01010000 *)
Definition CMP  : Z := 0xA7.  (* 0b10100111 *)
Definition HLT  : Z := 0x01.  (* 0b00000001 *)
Definition JEQ  : Z := 0x55.  (* 0b01010101 *)
Definition JMP  : Z := 0x54.  (* 0b01010100 *)
Definition JNE  : Z := 0x56.  (* 0b01010110 *)
Definition LDI  : Z := 0x82.  (* 0b10000010 *)
Definition MOD  : Z := 0xA4.  (* 0b10100100 *)
Definition MUL  : Z := 0xA2.  (* 0b10100010 *)
Definition NOT  : Z := 0x69.  (* 0b01101001 *)
Definition OR   : Z := 0xAA.  (* 0b10101010 *)
Definition POP  : Z := 0x46.  (* 0b01000110 *)
Definition PRN  : Z := 0x47.  (* 0b01000111 *)
Definition PUSH : Z := 0x45.  (* 0b01000101 *)
Definition RET  : Z := 0x11.  (* 0b00010001 *)
Definition SHL  : Z := 0xAC.  (* 0b10101100 *)
Definition SHR  : Z := 0xAD.  (* 0b10101101 *)
Definition XOR  : Z := 0xAB.  (* 0b10101011 *)
Definition SP   : Z := 7.

(** ** Machine state *)

(** What [print] has written to standard output, oldest line first. *)
Inductive output :=
| OutStr (s : string)
| OutInt (z : Z)
| OutList (l : list string).

(** The attributes of a [CPU] instance; [stdout] is the output stream the
    methods print to. *)
Record CPU := mkCPU {
  reg : list Z;
  pc : Z;
  ir : Z;
  fl : Z;
  ram : list Z;
  halted : bool;
  stdout : list output
}.

Definition with_reg (v : list Z) (s : CPU) : CPU :=
  mkCPU v (pc s) (ir s) (fl s) (ram s) (halted s) (stdout s).
Definition with_pc (v : Z) (s : CPU) : CPU :=
  mkCPU (reg s) v (ir s) (fl s) (ram s) (halted s) (stdout s).
Definition with_ir (v : Z) (s : CPU) : CPU :=
  mkCPU (reg s) (pc s) v (fl s) (ram s) (halted s) (stdout s).
Definition with_fl (v : Z) (s : CPU) : CPU :=
  mkCPU (reg s) (pc s) (ir s) v (ram s) (halted s) (stdout s).
Definition with_ram (v : list Z) (s : CPU) : CPU :=
  mkCPU (reg s) (pc s) (ir s) (fl s) v (halted s) (stdout s).
Definition with_halted (v : bool) (s : CPU) : CPU :=
  mkCPU (reg s) (pc s) (ir s) (fl s) (ram s) v (stdout s).
Definition with_stdout (v : list output) (s : CPU) : CPU :=
  mkCPU (reg s) (pc s) (ir s) (fl s) (ram s) (halted s) v.

(** ** Exceptions and the monad of methods *)

Inductive exn :=
| IndexError
| KeyError
| ValueError
| Unsupported_ALU_operation.

(** A method either returns a value, leaves through [sys.exit] or raises;
    each outcome carries the state of the instance at that moment. *)
Inductive result (A : Type) :=
| Val (a : A) (s : CPU)
| Exit (s : CPU)
| Raise (e : exn) (s : CPU).
Arguments Val {A} a s.
Arguments Exit {A} s.
Arguments Raise {A} e s.

Definition M (A : Type) : Type := CPU -> result A.

Definition pure {A} (a : A) : M A := fun s => Val a s.
Definition bind {A B} (m : M A) (k : A -> M B) : M B :=
  fun s => match m s with
           | Val a s' => k a s'
           | Exit s' => Exit s'
           | Raise e s' => Raise e s'
           end.
Definition raise {A} (e : exn) : M A := fun s => Raise e s.
Definition sys_exit {A} : M A := fun s => Exit s.
Definition gets {A} (f : CPU -> A) : M A := fun s => Val (f s) s.
Definition modify (f : CPU -> CPU) : M unit := fun s => Val tt (f s).

Notation "x <- m ; k" := (bind m (fun x => k))
  (at level 20, m at level 100, k at level 200, only parsing).

(** ** Python list indexing *)

(** The position [l[i]] denotes in a list of length [len], if any. *)
Definition py_index (len : nat) (i : Z) : option nat :=
  if (0 <=? i) && (i <? Z.of_nat len) then Some (Z.to_nat i)
  else if (- Z.of_nat len <=? i) && (i <? 0) then Some (Z.to_nat (i + Z.of_nat len))
  else None.

Definition py_getitem (l : list Z) (i : Z) : option Z :=
  match py_index (length l) i with
  | Some k => l !! k
  | None => None
  end.

Definition py_setitem (l : list Z) (i v : Z) : option (list Z) :=
  match py_index (length l) i with
  | Some k => Some (<[k:=v]> l)
  | None => None
  end.

(** [self.reg[i]] and [self.reg[i] = v]. *)
Definition reg_get (i : Z) : M Z :=
  fun s => match py_getitem (reg s) i with
           | Some v => Val v s
           | None => Raise IndexError s
           end.
Definition reg_set (i v : Z) : M unit :=
  fun s => match py_setitem (reg s) i v with
           | Some l => Val tt (with_reg l s)
           | None => Raise IndexError s
           end.

(** cpu_sprint.py, lines 137-143. *)
Definition ram_read (address : Z) : M Z :=
  fun s => match py_getitem (ram s) address with
           | Some v => Val v s
           | None => Raise IndexError s
           end.
Definition ram_write (address value : Z) : M unit :=
  fun s => match py_setitem (ram s) address value with
           | Some l => Val tt (with_ram l s)
           | None => Raise IndexError s
           end.

Definition print (o : output) : M unit :=
  modify (fun s => with_stdout (stdout s ++ [o]) s).

(** ** Instruction handlers (cpu_sprint.py, lines 171-231) *)

Definition call (operand_a operand_b : Z) : M unit :=
  sp <- reg_get SP ; _ <- reg_set SP (sp - 1) ;
  sp <- reg_get SP ; p <- gets pc ; _ <- ram_write sp (p + 2) ;
  t <- reg_get operand_a ; modify (with_pc t).

Definition hlt (operand_a operand_b : Z) : M unit :=
  _ <- modify (with_halted true) ; sys_exit.

Definition jeq (operand_a operand_b : Z) : M unit :=
  f <- gets fl ;
  if f =? 0x01 then t <- reg_get operand_a ; modify (with_pc t)
  else p <- gets pc ; modify (with_pc (p + 2)).

Definition jmp (operand_a operand_b : Z) : M unit :=
  t <- reg_get operand_a ; modify (with_pc t).

Definition jne (operand_a operand_b : Z) : M unit :=
  f <- gets fl ;
  if negb (f =? 0x01) then t <- reg_get operand_a ; modify (with_pc t)
  else p <- gets pc ; modify (with_pc (p + 2)).

Definition ldi (operand_a operand_b : Z) : M unit :=
  reg_set operand_a operand_b.

Definition pop (operand_a operand_b : Z) : M unit :=
  sp <- reg_get SP ; v <- ram_read sp ; _ <- reg_set operand_a v ;
  sp <- reg_get SP ; reg_set SP (sp + 1).

Definition prn (operand_a operand_b : Z) : M unit :=
  v <- reg_get operand_a ; print (OutInt v).

Definition push (operand_a operand_b : Z) : M unit :=
  sp <- reg_get SP ; _ <- reg_set SP (sp - 1) ;
  sp <- reg_get SP ; v <- reg_get operand_a ; ram_write sp v.

Definition ret (operand_a operand_b : Z) : M unit :=
  sp <- reg_get SP ; t <- ram_read sp ; modify (with_pc t).

(** The dictionary built in [__init__]. *)
Definition branchtable : gmap Z (Z -> Z -> M unit) :=
  list_to_map
    [ (CALL, call); (HLT, hlt); (JEQ, jeq); (JMP, jmp); (JNE, jne);
      (LDI, ldi); (POP, pop); (PRN, prn); (PUSH, push); (RET, ret) ].

(** ** The ALU (cpu_sprint.py, lines 73-135) *)

(** [self.reg[reg_a] op= self.reg[reg_b]]: both reads, then the store. *)
Definition aug_assign (op : Z -> Z -> Z) (reg_a reg_b : Z) : M unit :=
  x <- reg_get reg_a ; y <- reg_get reg_b ; reg_set reg_a (op x y).

Definition alu (instruction reg_a reg_b : Z) : M unit :=
  if instruction =? ADD then aug_assign Z.add reg_a reg_b
  else if instruction =? AND then aug_assign Z.land reg_a reg_b
  else if instruction =? CMP then
    x <- reg_get reg_a ; y <- reg_get reg_b ;
    if x <? y then modify (with_fl 0x04)
    else
      x <- reg_get reg_a ; y <- reg_get reg_b ;
      if x >? y then modify (with_fl 0x02)
      else modify (with_fl 0x01)
  else if instruction =? MOD then
    y <- reg_get reg_b ;
    if y =? 0 then hlt reg_a reg_b
    else x <- reg_get reg_a ; y <- reg_get reg_b ; reg_set reg_a (x `mod` y)
  else if instruction =? MUL then aug_assign Z.mul reg_a reg_b
  else if instruction =? NOT then
    x <- reg_get reg_a ; reg_set reg_a (Z.lnot x)
  else if instruction =? OR then aug_assign Z.lor reg_a reg_b
  else if instruction =? SHL then
    x <- reg_get reg_a ; y <- reg_get reg_b ;
    if y <? 0 then raise ValueError else reg_set reg_a (Z.shiftl x y)
  else if instruction =? SHR then
    x <- reg_get reg_a ; y <- reg_get reg_b ;
    if y <? 0 then raise ValueError else reg_set reg_a (Z.shiftr x y)
  else if instruction =? XOR then aug_assign Z.lxor reg_a reg_b
  else raise Unsupported_ALU_operation.

(** ** The run loop (cpu_sprint.py, lines 145-169) *)

Definition num_args (i : Z) : Z := Z.shiftr i 6.
Definition is_alu_op (i : Z) : Z := Z.land (Z.shiftr i 5) 0x01.
Definition pc_setter (i : Z) : Z := Z.land (Z.shiftr i 4) 0x01.

(** Lines 161-165: the ALU or the handler the dictionary has for [i]. *)
Definition dispatch (i operand_a operand_b : Z) : M unit :=
  if is_alu_op i =? 1 then alu i operand_a operand_b
  else match branchtable !! i with
       | Some handler => handler operand_a operand_b
       | None => raise KeyError
       end.

(** Lines 167-169. *)
Definition advance (i : Z) : M unit :=
  if negb (pc_setter i =? 1) then
    p <- gets pc ; modify (with_pc (p + (num_args i + 1)))
  else pure tt.

(** Lines 151-159: the instruction register and the two operand reads. *)
Definition fetch : M (Z * Z * Z) :=
  p <- gets pc ; v <- ram_read p ; _ <- modify (with_ir v) ;
  i <- gets ir ;
  p <- gets pc ; operand_a <- ram_read (p + 1) ;
  p <- gets pc ; operand_b <- ram_read (p + 2) ;
  pure (i, operand_a, operand_b).

(** One iteration of the body of [while not self.halted]. *)
Definition cycle : M unit :=
  f <- fetch ;
  let '(i, operand_a, operand_b) := f in
  _ <- dispatch i operand_a operand_b ; advance i.

(** The loop, bounded by [fuel] iterations; [None] when they run out. *)
Fixpoint run (fuel : nat) (s : CPU) : option (result unit) :=
  if halted s then Some (Val tt s)
  else match fuel with
       | O => None
       | S n => match cycle s with
                | Val _ s' => run n s'
                | r => Some r
                end
       end.

(** ** Construction and loading (cpu_sprint.py, lines 31-71) *)

Definition CPU_init : CPU :=
  mkCPU (<[7%nat := 0xF4]> (replicate 8 0)) 0 0 0x00 (replicate 256 0) false [].

(** [line.split("#")[0]]. *)
Fixpoint before_hash (line : string) : string :=
  match line with
  | EmptyString => EmptyString
  | String c rest => if Ascii.eqb c "#"%char then EmptyString
                     else String c (before_hash rest)
  end.

Section Load.
(** [int(x.strip(), 2)] of the Python runtime, [None] where it raises. *)
Variable int_strip_2 : string -> option Z.
(** The files that exist, as their lines; [None] is [FileNotFoundError]. *)
Variable fs : string -> option (list string).

(** The [for line in f] loop; the bare [except] also swallows the
    [IndexError] of a write past the end of memory. *)
Fixpoint load_lines (lines : list string) (address : Z) (s : CPU) : CPU :=
  match lines with
  | [] => s
  | line :: rest =>
      match int_strip_2 (before_hash line) with
      | Some x => match ram_write address x s with
                  | Val _ s' => load_lines rest (address + 1) s'
                  | _ => load_lines rest address s
                  end
      | None => load_lines rest address s
      end
  end.

Definition load (filename : string) : M unit :=
  match fs filename with
  | Some lines => modify (load_lines lines 0)
  | None => print (OutStr "File not found.")
  end.

(** ls8_sprint.py: what the script prints and how the machine ends;
    [MainUsage] is the branch that builds no machine. *)
Inductive main_result :=
| MainUsage (printed : list output)
| MainRan (r : result unit).

Definition main (argv : list string) (fuel : nat) : option main_result :=
  if negb (length argv =? 2)%nat then
    Some (MainUsage [OutStr "Wrong number of arguments passed in."; OutList argv])
  else
    match load (nth 1 argv EmptyString) CPU_init with
    | Val _ s => MainRan <$> run fuel s
    | r => Some (MainRan r)
    end.
End Load.

(** ** States, predicates and programs used in the statements *)

(** What it means for a handler to touch one register and nothing else. *)
Definition updates_only_reg (s s' : CPU) (k : nat) (v : Z) : Prop :=
  reg s' !! k = Some v /\
  (forall r, r <> k -> reg s' !! r = reg s !! r) /\
  length (reg s') = length (reg s) /\
  fl s' = fl s /\ pc s' = pc s /\ ir s' = ir s /\ ram s' = ram s /\
  halted s' = halted s /\ stdout s' = stdout s.

(** A register file whose cells are all 8-bit values. *)
Definition byte_valued (l : list Z) : Prop := Forall (fun v => 0 <= v < 256) l.

(** The state used against the wraparound reading of add and multiply:
    R0 = 200, R1 = 100, the stack pointer at its initial 0xF4. *)
Definition wrap_state : CPU := with_reg [200; 100; 0; 0; 0; 0; 0; 0xF4] CPU_init.

(** R0 = 7 and R1 = 0: the divisor of [MOD 0 1] is zero, that of
    [MOD 0 7] is the stack pointer 0xF4. *)
Definition mod_state : CPU := with_reg [7; 0; 0; 0; 0; 0; 0; 0xF4] CPU_init.

(** The three condition bits of the flags register. *)
Definition FL_E : Z := 0x01.
Definition FL_G : Z := 0x02.
Definition FL_L : Z := 0x04.

(** The state [call] leaves: SP one lower, the return address [pc + 2]
    in the cell [k] that SP now denotes, the program counter at [t]. *)
Definition after_call (s : CPU) (sp : Z) (k : nat) (t : Z) : CPU :=
  with_pc t
    (with_ram (<[k := pc s + 2]> (ram s))
       (with_reg (<[7%nat := sp - 1]> (reg s)) s)).

(** A subroutine address 0x20 in R0, the call at address 0x10. *)
Definition call_state : CPU :=
  with_pc 0x10 (with_reg [0x20; 0; 0; 0; 0; 0; 0; 0xF4] CPU_init).

(** The state [push] leaves: SP one lower and the value [v] the operand
    register then holds in the cell [k] that SP denotes. *)
Definition after_push (s : CPU) (sp : Z) (k : nat) (v : Z) : CPU :=
  with_ram (<[k := v]> (ram s)) (with_reg (<[7%nat := sp - 1]> (reg s)) s).

Definition keeps_pc {A} (m : M A) : Prop :=
  forall s a s', m s = Val a s' -> pc s' = pc s.

(** A fresh machine whose memory starts with the bytes [prog], as [load]
    leaves it after reading them from a file. *)
Definition image (prog : list Z) : CPU :=
  with_ram (prog ++ replicate (256 - length prog) 0) CPU_init.

(** [LDI R0, 8] at address 0, then [JMP R0] at address 3. *)
Definition ldi_jmp_state : CPU := image [LDI; 0; 8; JMP; 0].

(** The opcodes the ALU knows and the keys of the dictionary. *)
Definition alu_opcodes : list Z := [ADD; AND; CMP; MOD; MUL; NOT; OR; SHL; SHR; XOR].
Definition handler_opcodes : list Z :=
  [CALL; HLT; JEQ; JMP; JNE; LDI; POP; PRN; PUSH; RET].
Definition opcodes : list Z := alu_opcodes ++ handler_opcodes.

(** Byte 0 at address 0 (no handler) and byte 0xA1 (ALU class, no
    operation). *)
Definition zero_state : CPU := image [].
Definition bad_alu_state : CPU := image [0xA1; 0; 0].

(** The halt instruction in the last but one cell, the machine about to
    fetch it. *)
Definition hlt_at_254 : CPU :=
  with_pc 254 (with_ram (replicate 254 0 ++ [HLT; 0]) CPU_init).

(** [n] iterations of the loop body, whatever the halted flag says. *)
Fixpoint cycles (n : nat) : M unit :=
  match n with
  | O => pure tt
  | S n' => _ <- cycle ; cycles n'
  end.

(** [NOT R0] then [JMP R0]: R0 becomes ~0 = -1 and the jump stores it in
    the program counter. *)
Definition not_jmp_state : CPU := image [NOT; 0; JMP; 0].

Definition missing_argv : list string :=
  ["ls8_sprint.py"%string; "missing.ls8"%string].


(** A part [f] of the state that a computation returns unchanged. *)
Definition keeps {A B} (f : CPU -> B) (m : M A) : Prop :=
  forall s a s', m s = Val a s' -> f s' = f s.

(** The values [load] writes for the lines of a file: those of the lines
    whose text before the comment parses. *)
Definition parsed_bytes (int_strip_2 : string -> option Z)
    (lines : list string) : list Z :=
  omap (fun line => int_strip_2 (before_hash line)) lines.

(** A relation [R] between the state a computation starts in and the
    state it returns. *)
Definition steps (R : CPU -> CPU -> Prop) {A} (m : M A) : Prop :=
  forall s a s', m s = Val a s' -> R s s'.

(** The flags register is as before or holds one condition bit. *)
Definition flags_step (s s' : CPU) : Prop :=
  fl s' = fl s \/ fl s' = 1 \/ fl s' = 2 \/ fl s' = 4.

(** The output has only grown. *)
Definition output_step (s s' : CPU) : Prop :=
  exists more, stdout s' = stdout s ++ more.

(** The stack pointer at -256: the next push would write cell -257. *)
Definition low_sp_state : CPU := with_reg [5; 0; 0; 0; 0; 0; 0; -256] CPU_init.

(** ** Evaluation lemmas *)

Lemma py_index_lt len i k : py_index len i = Some k -> (k < len)%nat.
Proof.
  unfold py_index.
  destruct ((0 <=? i) && (i <? Z.of_nat len)) eqn:E1.
  - intros [= <-]. apply andb_true_iff in E1 as [H1%Z.leb_le H2%Z.ltb_lt]. lia.
  - destruct ((- Z.of_nat len <=? i) && (i <? 0)) eqn:E2; [|discriminate].
    intros [= <-]. apply andb_true_iff in E2 as [H1%Z.leb_le H2%Z.ltb_lt]. lia.
Qed.

Lemma py_index_nonneg len i :
  0 <= i -> (Z.to_nat i < len)%nat -> py_index len i = Some (Z.to_nat i).
Proof.
  intros H0 Hlt. unfold py_index.
  replace ((0 <=? i) && (i <? Z.of_nat len)) with true; [done|].
  symmetry. apply andb_true_iff. split; [apply Z.leb_le | apply Z.ltb_lt]; lia.
Qed.

Lemma py_index_range len i :
  py_index len i = None <-> i < - Z.of_nat len \/ Z.of_nat len <= i.
Proof.
  unfold py_index.
  destruct (Z.leb_spec 0 i), (Z.ltb_spec i (Z.of_nat len)),
    (Z.leb_spec (- Z.of_nat len) i), (Z.ltb_spec i 0); simpl;
    split; intros Hx; try discriminate; try lia; done.
Qed.

Lemma py_getitem_nonneg l i v :
  0 <= i -> l !! Z.to_nat i = Some v -> py_getitem l i = Some v.
Proof.
  intros H0 Hl. unfold py_getitem.
  rewrite py_index_nonneg; [done..|]. by eapply lookup_lt_Some.
Qed.

Lemma py_setitem_nonneg l i v :
  0 <= i -> (Z.to_nat i < length l)%nat ->
  py_setitem l i v = Some (<[Z.to_nat i := v]> l).
Proof. intros H0 Hl. unfold py_setitem. by rewrite py_index_nonneg. Qed.

Lemma reg_get_at s i k v :
  py_index (length (reg s)) i = Some k -> reg s !! k = Some v ->
  reg_get i s = Val v s.
Proof. intros Hi Hk. unfold reg_get, py_getitem. by rewrite Hi, Hk. Qed.

Lemma reg_set_at s i k v :
  py_index (length (reg s)) i = Some k ->
  reg_set i v s = Val tt (with_reg (<[k:=v]> (reg s)) s).
Proof. intros Hi. unfold reg_set, py_setitem. by rewrite Hi. Qed.

Lemma ram_read_at s i k v :
  py_index (length (ram s)) i = Some k -> ram s !! k = Some v ->
  ram_read i s = Val v s.
Proof. intros Hi Hk. unfold ram_read, py_getitem. by rewrite Hi, Hk. Qed.

Lemma ram_write_at s i k v :
  py_index (length (ram s)) i = Some k ->
  ram_write i v s = Val tt (with_ram (<[k:=v]> (ram s)) s).
Proof. intros Hi. unfold ram_write, py_setitem. by rewrite Hi. Qed.

Lemma ram_read_cases i s :
  (exists v, ram_read i s = Val v s) \/ ram_read i s = Raise IndexError s.
Proof. unfold ram_read. destruct (py_getitem (ram s) i); eauto. Qed.

Lemma ram_read_out_of_range s i :
  i < - Z.of_nat (length (ram s)) \/ Z.of_nat (length (ram s)) <= i ->
  ram_read i s = Raise IndexError s.
Proof.
  intros H%py_index_range. unfold ram_read, py_getitem. by rewrite H.
Qed.

Lemma reg_get_nonneg s i v :
  0 <= i -> reg s !! Z.to_nat i = Some v -> reg_get i s = Val v s.
Proof.
  intros H0 Hl. eapply reg_get_at; [|done].
  apply py_index_nonneg; [done|]. by eapply lookup_lt_Some.
Qed.

Lemma reg_set_nonneg s i v :
  0 <= i -> (Z.to_nat i < length (reg s))%nat ->
  reg_set i v s = Val tt (with_reg (<[Z.to_nat i := v]> (reg s)) s).
Proof. intros H0 Hl. apply reg_set_at. by apply py_index_nonneg. Qed.

(** A step [m] followed by [k], once [m] is known to return. *)
Lemma bind_val {A B} (m : M A) (k : A -> M B) s a s' :
  m s = Val a s' -> bind m k s = k a s'.
Proof. intros H. unfold bind. by rewrite H. Qed.

Lemma bind_raise {A B} (m : M A) (k : A -> M B) s e s' :
  m s = Raise e s' -> bind m k s = Raise e s'.
Proof. intros H. unfold bind. by rewrite H. Qed.

Lemma bind_exit {A B} (m : M A) (k : A -> M B) s s' :
  m s = Exit s' -> bind m k s = Exit s'.
Proof. intros H. unfold bind. by rewrite H. Qed.

Lemma with_reg_insert_updates s k v :
  (k < length (reg s))%nat ->
  updates_only_reg s (with_reg (<[k:=v]> (reg s)) s) k v.
Proof.
  intros Hk. unfold updates_only_reg; simpl.
  split; [by apply list_lookup_insert_eq|].
  split; [intros r Hr; by apply list_lookup_insert_ne|].
  split; [apply length_insert|]. done.
Qed.

(** The body of [x op= y] on two readable registers. *)
Lemma aug_assign_nonneg op s a b ra rb :
  0 <= a -> 0 <= b ->
  reg s !! Z.to_nat a = Some ra -> reg s !! Z.to_nat b = Some rb ->
  aug_assign op a b s = Val tt (with_reg (<[Z.to_nat a := op ra rb]> (reg s)) s).
Proof.
  intros Ha Hb Hra Hrb. unfold aug_assign.
  rewrite (bind_val _ _ s ra s) by by apply reg_get_nonneg.
  rewrite (bind_val _ _ s rb s) by by apply reg_get_nonneg.
  apply reg_set_nonneg; [done|]. by eapply lookup_lt_Some.
Qed.

(** ** The ALU *)

Lemma alu_ADD a b : alu ADD a b = aug_assign Z.add a b.
Proof. reflexivity. Qed.

Lemma alu_MUL a b : alu MUL a b = aug_assign Z.mul a b.
Proof. reflexivity. Qed.

Lemma alu_MOD a b :
  alu MOD a b =
  (y <- reg_get b ;
   if y =? 0 then hlt a b
   else x <- reg_get a ; y <- reg_get b ; reg_set a (x `mod` y)).
Proof. reflexivity. Qed.

Lemma alu_CMP a b :
  alu CMP a b =
  (x <- reg_get a ; y <- reg_get b ;
   if x <? y then modify (with_fl 4)
   else x <- reg_get a ; y <- reg_get b ;
        if x >? y then modify (with_fl 2) else modify (with_fl 1)).
Proof. reflexivity. Qed.

(** C1, as stated, fails: on 8-bit register values 200 and 100 the add
    opcode leaves 300 in R0, not 300 mod 256 = 44, and multiply leaves
    20000, not 20000 mod 256 = 32. *)
Lemma alu_add_mul_do_not_wrap :
  byte_valued (reg wrap_state) /\
  alu ADD 0 1 wrap_state
    = Val tt (with_reg [300; 100; 0; 0; 0; 0; 0; 0xF4] wrap_state) /\
  300 <> (200 + 100) mod 256 /\
  alu MUL 0 1 wrap_state
    = Val tt (with_reg [20000; 100; 0; 0; 0; 0; 0; 0xF4] wrap_state) /\
  20000 <> (200 * 100) mod 256.
Proof.
  split.
  - unfold byte_valued, wrap_state; simpl. repeat constructor; lia.
  - repeat split; try reflexivity; by vm_compute.
Qed.

(** C1, amended: add (multiply) stores the exact integer sum (product) of
    the old reg[a] and reg[b] in reg[a], with no reduction modulo 256, and
    changes no other register, no flag and nothing else; the stored value is
    the 8-bit wraparound value exactly when it is below 256. *)
Theorem alu_add_mul_exact s a b ra rb :
  0 <= a < 8 -> 0 <= b < 8 ->
  reg s !! Z.to_nat a = Some ra -> reg s !! Z.to_nat b = Some rb ->
  0 <= ra < 256 -> 0 <= rb < 256 ->
  (exists s', alu ADD a b s = Val tt s' /\
              updates_only_reg s s' (Z.to_nat a) (ra + rb)) /\
  (exists s', alu MUL a b s = Val tt s' /\
              updates_only_reg s s' (Z.to_nat a) (ra * rb)) /\
  (ra + rb = (ra + rb) mod 256 <-> ra + rb < 256) /\
  (ra * rb = (ra * rb) mod 256 <-> ra * rb < 256).
Proof.
  intros Ha Hb Hra Hrb Bra Brb.
  assert (Hlt : (Z.to_nat a < length (reg s))%nat) by by eapply lookup_lt_Some.
  split; [|split; [|split]].
  - eexists. split.
    + rewrite alu_ADD. apply (aug_assign_nonneg Z.add s a b ra rb); lia || done.
    + by apply with_reg_insert_updates.
  - eexists. split.
    + rewrite alu_MUL. apply (aug_assign_nonneg Z.mul s a b ra rb); lia || done.
    + by apply with_reg_insert_updates.
  - split; intros H.
    + pose proof (Z.mod_pos_bound (ra + rb) 256). lia.
    + symmetry. apply Z.mod_small. lia.
  - split; intros H.
    + pose proof (Z.mod_pos_bound (ra * rb) 256). lia.
    + symmetry. apply Z.mod_small. nia.
Qed.

Lemma alu_add_mul_exact_witness :
  exists s', alu ADD 0 1 wrap_state = Val tt s' /\
             updates_only_reg wrap_state s' 0 300.
Proof.
  apply (alu_add_mul_exact wrap_state 0 1 200 100); (lia || reflexivity).
Defined.

(** C4: modulo by a zero register halts (the halted flag is set and the
    process leaves through [sys.exit]) with every register, the flags and
    the memory as before; otherwise reg[a] becomes reg[a] mod reg[b] and
    nothing halts. *)
Theorem alu_mod_zero_halts s a b ra rb :
  0 <= a < 8 -> 0 <= b < 8 ->
  reg s !! Z.to_nat a = Some ra -> reg s !! Z.to_nat b = Some rb ->
  (rb = 0 ->
     alu MOD a b s = Exit (with_halted true s) /\
     halted (with_halted true s) = true /\
     reg (with_halted true s) = reg s /\
     reg (with_halted true s) !! Z.to_nat a = Some ra) /\
  (rb <> 0 ->
     exists s', alu MOD a b s = Val tt s' /\
                updates_only_reg s s' (Z.to_nat a) (ra `mod` rb) /\
                halted s' = halted s).
Proof.
  intros Ha Hb Hra Hrb.
  assert (Hga : reg_get a s = Val ra s) by (apply reg_get_nonneg; lia || done).
  assert (Hgb : reg_get b s = Val rb s) by (apply reg_get_nonneg; lia || done).
  split.
  - intros ->. rewrite alu_MOD, (bind_val _ _ _ _ _ Hgb). simpl.
    repeat split; done.
  - intros Hne. rewrite alu_MOD, (bind_val _ _ _ _ _ Hgb).
    destruct (Z.eqb_spec rb 0) as [|_]; [done|].
    rewrite (bind_val _ _ _ _ _ Hga), (bind_val _ _ _ _ _ Hgb).
    assert (Hlt : (Z.to_nat a < length (reg s))%nat) by by eapply lookup_lt_Some.
    rewrite reg_set_nonneg by (lia || done).
    eexists. split; [done|]. split; [by apply with_reg_insert_updates|done].
Qed.

Lemma alu_mod_zero_halts_witness :
  alu MOD 0 1 mod_state = Exit (with_halted true mod_state) /\
  exists s', alu MOD 0 7 mod_state = Val tt s' /\
             updates_only_reg mod_state s' 0 7 /\ halted s' = false.
Proof.
  split.
  - apply (alu_mod_zero_halts mod_state 0 1 7 0); (lia || reflexivity).
  - apply (alu_mod_zero_halts mod_state 0 7 7 0xF4); (lia || reflexivity).
Defined.

(** C5: compare stores exactly one condition bit in the flags register:
    less-than when reg[a] < reg[b], greater-than when reg[a] > reg[b], equal
    otherwise; every other bit of the flags is clear and no register (nor
    anything else) changes. *)
Theorem alu_cmp_sets_one_flag s a b ra rb :
  0 <= a < 8 -> 0 <= b < 8 ->
  reg s !! Z.to_nat a = Some ra -> reg s !! Z.to_nat b = Some rb ->
  let f := if ra <? rb then FL_L else if ra >? rb then FL_G else FL_E in
  alu CMP a b s = Val tt (with_fl f s) /\
  reg (with_fl f s) = reg s /\
  (forall n, Z.testbit f n =
             if ra <? rb then n =? 2 else if ra >? rb then n =? 1 else n =? 0).
Proof.
  intros Ha Hb Hra Hrb f.
  assert (Hga : reg_get a s = Val ra s) by (apply reg_get_nonneg; lia || done).
  assert (Hgb : reg_get b s = Val rb s) by (apply reg_get_nonneg; lia || done).
  split; [|split; [done|]].
  - rewrite alu_CMP, (bind_val _ _ _ _ _ Hga), (bind_val _ _ _ _ _ Hgb).
    subst f. destruct (ra <? rb); [done|].
    rewrite (bind_val _ _ _ _ _ Hga), (bind_val _ _ _ _ _ Hgb).
    by destruct (ra >? rb).
  - intros n. subst f.
    assert (Hbit : forall k, 0 <= k -> Z.testbit (2 ^ k) n = (n =? k)).
    { intros k Hk. rewrite Z.pow2_bits_eqb by done. apply Z.eqb_sym. }
    destruct (ra <? rb); [apply (Hbit 2); lia|].
    destruct (ra >? rb); [apply (Hbit 1); lia|apply (Hbit 0); lia].
Qed.

Lemma alu_cmp_sets_one_flag_witness :
  alu CMP 0 7 mod_state = Val tt (with_fl FL_L mod_state) /\
  alu CMP 7 0 mod_state = Val tt (with_fl FL_G mod_state) /\
  alu CMP 1 2 mod_state = Val tt (with_fl FL_E mod_state).
Proof.
  split; [|split].
  - apply (alu_cmp_sets_one_flag mod_state 0 7 7 0xF4); (lia || reflexivity).
  - apply (alu_cmp_sets_one_flag mod_state 7 0 0xF4 7); (lia || reflexivity).
  - apply (alu_cmp_sets_one_flag mod_state 1 2 0 0); (lia || reflexivity).
Defined.

(** ** The stack: call and return, push and pop *)

Lemma reg_get_SP s sp : reg s !! 7%nat = Some sp -> reg_get SP s = Val sp s.
Proof. intros H. by apply (reg_get_nonneg s SP sp). Qed.

Lemma reg_set_SP s sp v :
  reg s !! 7%nat = Some sp ->
  reg_set SP v s = Val tt (with_reg (<[7%nat := v]> (reg s)) s).
Proof.
  intros H. apply (reg_set_nonneg s SP v); [done|].
  change (Z.to_nat SP) with 7%nat. by eapply lookup_lt_Some.
Qed.

Lemma call_returns s a b sp k t :
  0 <= a < 8 ->
  reg s !! 7%nat = Some sp ->
  py_index (length (ram s)) (sp - 1) = Some k ->
  <[7%nat := sp - 1]> (reg s) !! Z.to_nat a = Some t ->
  call a b s = Val tt (after_call s sp k t).
Proof.
  intros Ha Hsp Hk Ht. unfold call.
  assert (H7 : (7 < length (reg s))%nat) by by eapply lookup_lt_Some.
  rewrite (bind_val _ _ _ _ _ (reg_get_SP s sp Hsp)).
  rewrite (bind_val _ _ _ _ _ (reg_set_SP s sp (sp - 1) Hsp)).
  set (s1 := with_reg _ s).
  assert (Hsp1 : reg s1 !! 7%nat = Some (sp - 1))
    by by apply list_lookup_insert_eq.
  rewrite (bind_val _ _ _ _ _ (reg_get_SP s1 _ Hsp1)).
  rewrite (bind_val _ _ s1 (pc s) s1) by done.
  rewrite (bind_val _ _ _ _ _ (ram_write_at s1 (sp - 1) k (pc s + 2) Hk)).
  set (s2 := with_ram _ s1).
  rewrite (bind_val _ _ s2 t s2); [done|].
  apply reg_get_nonneg; [lia|done].
Qed.

Lemma ret_returns s a b sp k t :
  reg s !! 7%nat = Some sp ->
  py_index (length (ram s)) sp = Some k ->
  ram s !! k = Some t ->
  ret a b s = Val tt (with_pc t s).
Proof.
  intros Hsp Hk Ht. unfold ret.
  rewrite (bind_val _ _ _ _ _ (reg_get_SP s sp Hsp)).
  by rewrite (bind_val _ _ _ _ _ (ram_read_at s sp k t Hk Ht)).
Qed.

(** C6: call lowers SP (register 7) by exactly one and leaves it there,
    stores [pc + 2] in the memory cell SP then denotes and sets the program
    counter to reg[operand]; return sets the program counter to that cell's
    content and changes neither SP nor any other register or memory cell;
    so a return right after a call resumes two past the call opcode. *)
Theorem call_then_ret s a b a' b' sp k t :
  0 <= a < 8 ->
  reg s !! 7%nat = Some sp ->
  py_index (length (ram s)) (sp - 1) = Some k ->
  <[7%nat := sp - 1]> (reg s) !! Z.to_nat a = Some t ->
  let s1 := after_call s sp k t in
  let s2 := with_pc (pc s + 2) s1 in
  call a b s = Val tt s1 /\
  reg s1 !! 7%nat = Some (sp - 1) /\
  (forall r, r <> 7%nat -> reg s1 !! r = reg s !! r) /\
  ram s1 !! k = Some (pc s + 2) /\
  (forall c, c <> k -> ram s1 !! c = ram s !! c) /\
  pc s1 = t /\ reg s1 !! Z.to_nat a = Some t /\
  (Z.to_nat a <> 7%nat -> reg s !! Z.to_nat a = Some t) /\
  ret a' b' s1 = Val tt s2 /\
  reg s2 = reg s1 /\ ram s2 = ram s1 /\ pc s2 = pc s + 2.
Proof.
  intros Ha Hsp Hk Ht s1 s2.
  assert (H7 : (7 < length (reg s))%nat) by by eapply lookup_lt_Some.
  pose proof (py_index_lt _ _ _ Hk) as Hlt.
  assert (Hsp1 : reg s1 !! 7%nat = Some (sp - 1))
    by by apply list_lookup_insert_eq.
  assert (Hk1 : ram s1 !! k = Some (pc s + 2))
    by by apply list_lookup_insert_eq.
  split; [by apply call_returns|].
  split; [done|].
  split; [intros r Hr; by apply list_lookup_insert_ne|].
  split; [done|].
  split; [intros c Hc; by apply list_lookup_insert_ne|].
  split; [done|]. split; [done|].
  split; [intros Hne; by rewrite list_lookup_insert_ne in Ht|].
  split; [|done].
  apply (ret_returns s1 a' b' (sp - 1) k); [done| |done].
  subst s1. simpl. by rewrite length_insert.
Qed.

Lemma call_then_ret_witness :
  call 0 0 call_state = Val tt (after_call call_state 0xF4 0xF3 0x20) /\
  ret 0 0 (after_call call_state 0xF4 0xF3 0x20)
    = Val tt (with_pc 0x12 (after_call call_state 0xF4 0xF3 0x20)).
Proof.
  pose proof (call_then_ret call_state 0 0 0 0 0xF4 0xF3 0x20) as H.
  simpl in H.
  destruct H as (Hc & _ & _ & _ & _ & _ & _ & _ & Hr & _);
    [lia | reflexivity | reflexivity | reflexivity |].
  split; [exact Hc | exact Hr].
Defined.

Lemma push_returns s r b sp k v :
  0 <= r < 8 ->
  reg s !! 7%nat = Some sp ->
  py_index (length (ram s)) (sp - 1) = Some k ->
  <[7%nat := sp - 1]> (reg s) !! Z.to_nat r = Some v ->
  push r b s = Val tt (after_push s sp k v).
Proof.
  intros Hr Hsp Hk Hv. unfold push.
  assert (H7 : (7 < length (reg s))%nat) by by eapply lookup_lt_Some.
  rewrite (bind_val _ _ _ _ _ (reg_get_SP s sp Hsp)).
  rewrite (bind_val _ _ _ _ _ (reg_set_SP s sp (sp - 1) Hsp)).
  set (s1 := with_reg _ s).
  assert (Hsp1 : reg s1 !! 7%nat = Some (sp - 1))
    by by apply list_lookup_insert_eq.
  rewrite (bind_val _ _ _ _ _ (reg_get_SP s1 _ Hsp1)).
  rewrite (bind_val _ _ s1 v s1) by (apply reg_get_nonneg; [lia|done]).
  by apply (ram_write_at s1 (sp - 1) k v).
Qed.

Lemma pop_returns s r b sp k v :
  0 <= r < 8 ->
  (Z.to_nat r < length (reg s))%nat ->
  reg s !! 7%nat = Some sp ->
  py_index (length (ram s)) sp = Some k ->
  ram s !! k = Some v ->
  forall sp', <[Z.to_nat r := v]> (reg s) !! 7%nat = Some sp' ->
  pop r b s
  = Val tt (with_reg (<[7%nat := sp' + 1]> (<[Z.to_nat r := v]> (reg s))) s).
Proof.
  intros Hr Hlt Hsp Hk Hv sp' Hsp'. unfold pop.
  rewrite (bind_val _ _ _ _ _ (reg_get_SP s sp Hsp)).
  rewrite (bind_val _ _ _ _ _ (ram_read_at s sp k v Hk Hv)).
  rewrite (bind_val _ _ _ _ _ (reg_set_nonneg s r v (proj1 Hr) Hlt)).
  set (s1 := with_reg _ s).
  rewrite (bind_val _ _ _ _ _ (reg_get_SP s1 sp' Hsp')).
  by rewrite (reg_set_SP s1 sp' (sp' + 1) Hsp').
Qed.

(** C7: push on register r and then pop on r return: afterwards reg[r]
    holds its original value, SP (register 7) its value before the push, and
    every other register is as it was (the register file is the original
    one), r = 7 included. *)
Theorem push_pop_roundtrip s r b b' sp k v :
  0 <= r < 8 ->
  reg s !! 7%nat = Some sp ->
  reg s !! Z.to_nat r = Some v ->
  py_index (length (ram s)) (sp - 1) = Some k ->
  exists s1 s2,
    push r b s = Val tt s1 /\
    reg s1 !! 7%nat = Some (sp - 1) /\
    pop r b' s1 = Val tt s2 /\
    reg s2 !! Z.to_nat r = Some v /\
    reg s2 !! 7%nat = Some sp /\
    reg s2 = reg s.
Proof.
  intros Hr Hsp Hv Hk.
  assert (H7 : (7 < length (reg s))%nat) by by eapply lookup_lt_Some.
  assert (Hlt : (Z.to_nat r < length (reg s))%nat) by by eapply lookup_lt_Some.
  pose proof (py_index_lt _ _ _ Hk) as Hklt.
  (* the value push reads from reg[r], after SP was lowered *)
  set (v' := if decide (Z.to_nat r = 7%nat) then sp - 1 else v).
  assert (Hv' : <[7%nat := sp - 1]> (reg s) !! Z.to_nat r = Some v').
  { subst v'. destruct (decide (Z.to_nat r = 7%nat)) as [->|Hne].
    - by apply list_lookup_insert_eq.
    - by rewrite list_lookup_insert_ne. }
  set (s1 := after_push s sp k v').
  assert (Hsp1 : reg s1 !! 7%nat = Some (sp - 1))
    by by apply list_lookup_insert_eq.
  assert (Hsp' : <[Z.to_nat r := v']> (reg s1) !! 7%nat = Some (sp - 1)).
  { subst v'. destruct (decide (Z.to_nat r = 7%nat)) as [->|Hne].
    - apply list_lookup_insert_eq. simpl. by rewrite length_insert.
    - by rewrite list_lookup_insert_ne. }
  assert (Hfinal : <[7%nat := sp - 1 + 1]> (<[Z.to_nat r := v']> (reg s1)) = reg s).
  { replace (sp - 1 + 1) with sp by lia. subst s1; simpl.
    apply list_eq. intros i.
    destruct (decide (i = 7%nat)) as [->|Hi7].
    - rewrite list_lookup_insert_eq; [done|]. by rewrite !length_insert.
    - rewrite list_lookup_insert_ne by done.
      destruct (decide (i = Z.to_nat r)) as [->|Hir].
      + rewrite list_lookup_insert_eq by by rewrite length_insert.
        subst v'. by destruct (decide (Z.to_nat r = 7%nat)).
      + by rewrite !list_lookup_insert_ne. }
  exists s1, (with_reg (reg s) s1).
  split; [by apply push_returns|].
  split; [done|].
  split.
  - rewrite <- Hfinal at 1.
    apply (pop_returns s1 r b' (sp - 1) k v'); try done.
    + subst s1; simpl. by rewrite length_insert.
    + subst s1; simpl. by rewrite length_insert.
    + by apply list_lookup_insert_eq.
  - done.
Qed.

Lemma push_pop_roundtrip_witness :
  exists s1 s2,
    push 0 0 call_state = Val tt s1 /\
    reg s1 !! 7%nat = Some (0xF4 - 1) /\
    pop 0 0 s1 = Val tt s2 /\
    reg s2 !! Z.to_nat 0 = Some 0x20 /\
    reg s2 !! 7%nat = Some 0xF4 /\
    reg s2 = reg call_state.
Proof.
  apply (push_pop_roundtrip call_state 0 0 0 0xF4 0xF3 0x20);
    (lia || reflexivity).
Defined.

(** ** Decoding *)

Lemma land_1_testbit x n :
  0 <= n -> Z.land (Z.shiftr x n) 1 = Z.b2z (Z.testbit x n).
Proof.
  intros Hn. change 1 with (Z.ones 1).
  rewrite Z.land_ones, <- Z.bit0_mod, Z.shiftr_spec by lia.
  by rewrite Z.add_0_l.
Qed.

Lemma is_alu_op_bit i : is_alu_op i = Z.b2z (Z.testbit i 5).
Proof. by apply land_1_testbit. Qed.

Lemma pc_setter_bit i : pc_setter i = Z.b2z (Z.testbit i 4).
Proof. by apply land_1_testbit. Qed.

Lemma num_args_bits i :
  0 <= i < 256 ->
  num_args i = 2 * Z.b2z (Z.testbit i 7) + Z.b2z (Z.testbit i 6).
Proof.
  intros Hi. unfold num_args.
  rewrite <- (land_1_testbit i 7), <- (land_1_testbit i 6) by lia.
  change 1 with (Z.ones 1). rewrite !Z.land_ones by lia.
  rewrite !Z.shiftr_div_pow2 by lia.
  change (2 ^ 7) with 128. change (2 ^ 6) with 64. change (2 ^ 1) with 2.
  assert (H3 : 0 <= i `div` 64 < 4).
  { split; [apply Z.div_pos; lia | apply Z.div_lt_upper_bound; lia]. }
  assert (H7 : i `div` 128 = (i `div` 64) `div` 2)
    by (rewrite Z.div_div by lia; done).
  rewrite H7.
  pose proof (Z.div_mod (i `div` 64) 2 ltac:(lia)) as Hdm.
  assert (Hd : 0 <= (i `div` 64) `div` 2 < 2).
  { split; [apply Z.div_pos; lia | apply Z.div_lt_upper_bound; lia]. }
  rewrite (Z.mod_small ((i `div` 64) `div` 2) 2) by lia. lia.
Qed.

Lemma advance_spec i s :
  advance i s
  = Val tt (if Z.testbit i 4 then s else with_pc (pc s + (num_args i + 1)) s).
Proof.
  unfold advance. rewrite pc_setter_bit.
  by destruct (Z.testbit i 4).
Qed.

(** ** Handlers that leave the program counter alone *)

Create HintDb keeps_pc_db.

Lemma keeps_pc_bind {A B} (m : M A) (k : A -> M B) :
  keeps_pc m -> (forall a, keeps_pc (k a)) -> keeps_pc (bind m k).
Proof.
  intros Hm Hk s b s'. unfold bind.
  destruct (m s) as [a s1| |] eqn:E; [|discriminate..].
  intros H. rewrite (Hk a s1 b s' H). by eapply Hm.
Qed.

Lemma keeps_pc_if {A} (c : bool) (m1 m2 : M A) :
  keeps_pc m1 -> keeps_pc m2 -> keeps_pc (if c then m1 else m2).
Proof. by destruct c. Qed.

Lemma keeps_pc_reg_get i : keeps_pc (reg_get i).
Proof. intros s a s'. unfold reg_get. case_match; naive_solver. Qed.

Lemma keeps_pc_reg_set i v : keeps_pc (reg_set i v).
Proof. intros s a s'. unfold reg_set. case_match; naive_solver. Qed.

Lemma keeps_pc_ram_read i : keeps_pc (ram_read i).
Proof. intros s a s'. unfold ram_read. case_match; naive_solver. Qed.

Lemma keeps_pc_ram_write i v : keeps_pc (ram_write i v).
Proof. intros s a s'. unfold ram_write. case_match; naive_solver. Qed.

Lemma keeps_pc_gets {A} (f : CPU -> A) : keeps_pc (gets f).
Proof. intros s a s' [= _ <-]. done. Qed.

Lemma keeps_pc_modify f : (forall s, pc (f s) = pc s) -> keeps_pc (modify f).
Proof. intros Hf s a s' H. unfold modify in H. simplify_eq. apply Hf. Qed.

Lemma keeps_pc_pure {A} (x : A) : keeps_pc (pure x).
Proof. intros s a s' H. unfold pure in H. by simplify_eq. Qed.

Lemma keeps_pc_raise {A} e : keeps_pc (@raise A e).
Proof. intros s a s'. discriminate. Qed.

Lemma keeps_pc_sys_exit {A} : keeps_pc (@sys_exit A).
Proof. intros s a s'. discriminate. Qed.

#[local] Hint Resolve keeps_pc_bind keeps_pc_if keeps_pc_reg_get keeps_pc_reg_set
  keeps_pc_ram_read keeps_pc_ram_write keeps_pc_gets keeps_pc_modify
  keeps_pc_pure keeps_pc_raise keeps_pc_sys_exit : keeps_pc_db.

Ltac keeps_pc_tac :=
  repeat first
    [ apply keeps_pc_bind; [|intros ?]
    | apply keeps_pc_if
    | apply keeps_pc_modify; intros ?; reflexivity
    | solve [auto with keeps_pc_db] ].

Lemma keeps_pc_aug_assign op a b : keeps_pc (aug_assign op a b).
Proof. unfold aug_assign. keeps_pc_tac. Qed.

Lemma keeps_pc_hlt a b : keeps_pc (hlt a b).
Proof. unfold hlt. keeps_pc_tac. Qed.

Lemma keeps_pc_ldi a b : keeps_pc (ldi a b).
Proof. unfold ldi. keeps_pc_tac. Qed.

Lemma keeps_pc_pop a b : keeps_pc (pop a b).
Proof. unfold pop. keeps_pc_tac. Qed.

Lemma keeps_pc_prn a b : keeps_pc (prn a b).
Proof. unfold prn, print. keeps_pc_tac. Qed.

Lemma keeps_pc_push a b : keeps_pc (push a b).
Proof. unfold push. keeps_pc_tac. Qed.

Lemma keeps_pc_alu i a b : keeps_pc (alu i a b).
Proof.
  pose proof keeps_pc_aug_assign. pose proof keeps_pc_hlt.
  unfold alu. keeps_pc_tac.
Qed.

(** The dictionary has exactly the ten handlers of [__init__]. *)
Lemma branchtable_lookup i h :
  branchtable !! i = Some h ->
  (i = CALL /\ h = call) \/ (i = HLT /\ h = hlt) \/ (i = JEQ /\ h = jeq) \/
  (i = JMP /\ h = jmp) \/ (i = JNE /\ h = jne) \/ (i = LDI /\ h = ldi) \/
  (i = POP /\ h = pop) \/ (i = PRN /\ h = prn) \/ (i = PUSH /\ h = push) \/
  (i = RET /\ h = ret).
Proof.
  unfold branchtable. simpl.
  repeat (rewrite lookup_insert; case_decide;
          [intros [= <-]; subst; tauto|]).
  by rewrite lookup_empty.
Qed.

Lemma keeps_pc_dispatch i a b :
  Z.testbit i 4 = false -> keeps_pc (dispatch i a b).
Proof.
  intros Hbit. unfold dispatch.
  destruct (is_alu_op i =? 1); [apply keeps_pc_alu|].
  destruct (branchtable !! i) as [h|] eqn:E; [|apply keeps_pc_raise].
  apply branchtable_lookup in E.
  destruct E as [[-> ->]|[[-> ->]|[[-> ->]|[[-> ->]|[[-> ->]|
                 [[-> ->]|[[-> ->]|[[-> ->]|[[-> ->]|[-> ->]]]]]]]]]];
    try discriminate Hbit;
    auto using keeps_pc_hlt, keeps_pc_ldi, keeps_pc_pop, keeps_pc_prn,
      keeps_pc_push.
Qed.

(** ** The fetch-decode-execute cycle *)

Lemma keeps_pc_fetch : keeps_pc fetch.
Proof. unfold fetch. keeps_pc_tac. Qed.

Lemma cycle_after_fetch s i a b s0 :
  fetch s = Val (i, a, b) s0 ->
  cycle s = bind (dispatch i a b) (fun _ => advance i) s0.
Proof. intros H. unfold cycle. by rewrite (bind_val _ _ _ _ _ H). Qed.

(** C8: the operand count is the top two bits of the instruction byte, the
    ALU class is bit 5 and the PC-setter property is bit 4; once the
    dispatched handler has returned, the engine adds 1 + operand count to
    the program counter of the fetch when bit 4 is clear, and leaves the
    program counter as the handler set it when bit 4 is set. *)
Theorem decode_and_advance s i a b s0 s1 :
  0 <= i < 256 ->
  fetch s = Val (i, a, b) s0 ->
  dispatch i a b s0 = Val tt s1 ->
  num_args i = 2 * Z.b2z (Z.testbit i 7) + Z.b2z (Z.testbit i 6) /\
  is_alu_op i = Z.b2z (Z.testbit i 5) /\
  pc_setter i = Z.b2z (Z.testbit i 4) /\
  (Z.testbit i 4 = false ->
     pc s1 = pc s /\
     cycle s = Val tt (with_pc (pc s + (1 + num_args i)) s1)) /\
  (Z.testbit i 4 = true -> cycle s = Val tt s1).
Proof.
  intros Hi Hf Hd.
  split; [by apply num_args_bits|].
  split; [apply is_alu_op_bit|].
  split; [apply pc_setter_bit|].
  rewrite (cycle_after_fetch _ _ _ _ _ Hf), (bind_val _ _ _ _ _ Hd), advance_spec.
  split; intros Hbit; rewrite Hbit; [|done].
  assert (Hpc : pc s1 = pc s).
  { rewrite (keeps_pc_dispatch i a b Hbit _ _ _ Hd).
    by apply (keeps_pc_fetch s (i, a, b)). }
  split; [done|]. rewrite Hpc. do 2 f_equal. lia.
Qed.

Lemma decode_and_advance_witness :
  cycle ldi_jmp_state
  = Val tt (with_pc 3 (with_reg [8; 0; 0; 0; 0; 0; 0; 0xF4]
                         (with_ir LDI ldi_jmp_state))) /\
  cycle (with_pc 3 (with_reg [8; 0; 0; 0; 0; 0; 0; 0xF4]
                      (with_ir LDI ldi_jmp_state)))
  = Val tt (with_pc 8 (with_ir JMP (with_reg [8; 0; 0; 0; 0; 0; 0; 0xF4]
                                      ldi_jmp_state))).
Proof.
  split.
  - apply (decode_and_advance ldi_jmp_state LDI 0 8
             (with_ir LDI ldi_jmp_state)
             (with_reg [8; 0; 0; 0; 0; 0; 0; 0xF4] (with_ir LDI ldi_jmp_state)));
      first [ by vm_compute | vm_compute; lia ].
  - apply (decode_and_advance
             (with_pc 3 (with_reg [8; 0; 0; 0; 0; 0; 0; 0xF4]
                           (with_ir LDI ldi_jmp_state)))
             JMP 0 0
             (with_pc 3 (with_ir JMP (with_reg [8; 0; 0; 0; 0; 0; 0; 0xF4]
                                        ldi_jmp_state))));
      first [ by vm_compute | vm_compute; lia ].
Defined.

(** ** Unrecognised opcodes *)

Lemma alu_unsupported i a b s :
  i ∉ alu_opcodes -> alu i a b s = Raise Unsupported_ALU_operation s.
Proof.
  intros H. unfold alu_opcodes in H.
  repeat (apply not_elem_of_cons in H as [?%Z.eqb_neq H]).
  unfold alu. by repeat match goal with E : (i =? _) = false |- _ => rewrite E; clear E end.
Qed.

Lemma branchtable_missing i : i ∉ handler_opcodes -> branchtable !! i = None.
Proof.
  intros H. unfold handler_opcodes in H.
  repeat (apply not_elem_of_cons in H as [? H]).
  unfold branchtable. simpl.
  by repeat (rewrite lookup_insert_ne by done).
Qed.

Lemma dispatch_unrecognised i a b s :
  i ∉ opcodes ->
  dispatch i a b s
  = Raise (if Z.testbit i 5 then Unsupported_ALU_operation else KeyError) s.
Proof.
  intros H. apply not_elem_of_app in H as [Halu Hbt].
  unfold dispatch. rewrite is_alu_op_bit.
  destruct (Z.testbit i 5); simpl.
  - by apply alu_unsupported.
  - by rewrite branchtable_missing.
Qed.

(** The instruction fetch of a cycle either returns the three bytes, with
    the instruction register set, or raises [IndexError]. *)
Lemma fetch_cases s :
  (exists i a b, fetch s = Val (i, a, b) (with_ir i s)) \/
  (exists s', fetch s = Raise IndexError s').
Proof.
  unfold fetch, bind, gets, modify, pure, ram_read, with_ir; simpl.
  destruct (py_getitem (ram s) (pc s)) as [i|]; [|right; eauto]. simpl.
  destruct (py_getitem (ram s) (pc s + 1)) as [a|]; [|right; eauto]. simpl.
  destruct (py_getitem (ram s) (pc s + 2)) as [b|]; [|right; eauto].
  left. by exists i, a, b.
Qed.

Lemma fetch_ir s i a b s0 :
  fetch s = Val (i, a, b) s0 -> ram_read (pc s) s = Val i s /\ s0 = with_ir i s.
Proof.
  unfold fetch, bind, gets, modify, pure, ram_read, with_ir; simpl.
  destruct (py_getitem (ram s) (pc s)) as [i'|]; [|discriminate]. simpl.
  destruct (py_getitem (ram s) (pc s + 1)) as [a'|]; [|discriminate]. simpl.
  destruct (py_getitem (ram s) (pc s + 2)) as [b'|]; [|discriminate].
  by intros [= -> -> -> <-].
Qed.

Lemma run_raise fuel s e s' :
  halted s = false -> cycle s = Raise e s' ->
  run (S fuel) s = Some (Raise e s').
Proof. intros Hh Hc. simpl. by rewrite Hh, Hc. Qed.

(** C9: when the byte at the program counter is no opcode of the
    instruction set, the cycle raises and the run loop stops with that
    exception: an ALU-classed byte (bit 5 set) raises the "Unsupported ALU
    operation" exception, any other byte fails the dictionary lookup with
    [KeyError]; the only other outcome is the [IndexError] of an operand
    read past the memory, before dispatch. *)
Theorem unrecognised_opcode_stops s i :
  halted s = false ->
  ram_read (pc s) s = Val i s ->
  i ∉ opcodes ->
  exists e s',
    cycle s = Raise e s' /\
    (forall fuel, run (S fuel) s = Some (Raise e s')) /\
    ((exists a b, fetch s = Val (i, a, b) (with_ir i s)) ->
       s' = with_ir i s /\
       e = if Z.testbit i 5 then Unsupported_ALU_operation else KeyError) /\
    ((forall a b, fetch s <> Val (i, a, b) (with_ir i s)) -> e = IndexError).
Proof.
  intros Hh Hi Hop.
  destruct (fetch_cases s) as [(i' & a & b & Hf)|[s' Hf]].
  - destruct (fetch_ir _ _ _ _ _ Hf) as [Hi' _].
    rewrite Hi in Hi'. injection Hi' as <-.
    assert (Hc : cycle s = Raise (if Z.testbit i 5
                                  then Unsupported_ALU_operation else KeyError)
                             (with_ir i s)).
    { rewrite (cycle_after_fetch _ _ _ _ _ Hf).
      apply bind_raise. by apply dispatch_unrecognised. }
    eexists _, _. split; [exact Hc|].
    split; [intros fuel; by apply run_raise|].
    split; [done|]. intros Hno. by destruct (Hno a b).
  - assert (Hc : cycle s = Raise IndexError s').
    { unfold cycle. by apply bind_raise. }
    exists IndexError, s'. split; [done|].
    split; [intros fuel; by apply run_raise|].
    split; [|done]. intros (a & b & Hf'). rewrite Hf in Hf'. discriminate.
Qed.

Lemma unrecognised_opcode_stops_witness :
  exists e s',
    cycle bad_alu_state = Raise e s' /\
    (forall fuel, run (S fuel) bad_alu_state = Some (Raise e s')) /\
    ((exists a b, fetch bad_alu_state = Val (0xA1, a, b) (with_ir 0xA1 bad_alu_state)) ->
       s' = with_ir 0xA1 bad_alu_state /\
       e = if Z.testbit 0xA1 5 then Unsupported_ALU_operation else KeyError) /\
    ((forall a b, fetch bad_alu_state <> Val (0xA1, a, b) (with_ir 0xA1 bad_alu_state)) ->
       e = IndexError).
Proof.
  apply (unrecognised_opcode_stops bad_alu_state 0xA1);
    [reflexivity | reflexivity |].
  apply (bool_decide_unpack (0xA1 ∉ opcodes)). by vm_compute.
Defined.

Example bad_alu_raises :
  cycle bad_alu_state
  = Raise Unsupported_ALU_operation (with_ir 0xA1 bad_alu_state).
Proof. by vm_compute. Qed.

Example zero_byte_raises :
  run 1 zero_state = Some (Raise KeyError zero_state).
Proof. by vm_compute. Qed.

(** ** Operand reads and the range of the program counter *)

Lemma py_getitem_range l i v :
  py_getitem l i = Some v -> - Z.of_nat (length l) <= i < Z.of_nat (length l).
Proof.
  unfold py_getitem. destruct (py_index (length l) i) eqn:E; [|discriminate].
  intros _. destruct (py_index_range (length l) i) as [_ H].
  destruct (Z.lt_ge_cases i (- Z.of_nat (length l)));
    destruct (Z.lt_ge_cases i (Z.of_nat (length l))); try lia;
    rewrite H in E by lia; discriminate.
Qed.

(** A fetch that returns has read the cells at [pc], [pc + 1], [pc + 2]. *)
Lemma fetch_val_range s x s0 :
  fetch s = Val x s0 ->
  - Z.of_nat (length (ram s)) <= pc s /\ pc s + 2 < Z.of_nat (length (ram s)).
Proof.
  unfold fetch, bind, gets, modify, pure, ram_read, with_ir; simpl.
  destruct (py_getitem (ram s) (pc s)) as [i|] eqn:E0; [|discriminate]. simpl.
  destruct (py_getitem (ram s) (pc s + 1)) as [a|]; [|discriminate]. simpl.
  destruct (py_getitem (ram s) (pc s + 2)) as [b|] eqn:E2; [|discriminate].
  intros _. apply py_getitem_range in E0, E2. lia.
Qed.

Lemma cycle_fetch_raise s :
  (pc s < - Z.of_nat (length (ram s)) \/ Z.of_nat (length (ram s)) <= pc s + 2) ->
  exists s', cycle s = Raise IndexError s'.
Proof.
  intros Hr. destruct (fetch_cases s) as [(i & a & b & Hf)|[s' Hf]].
  - apply fetch_val_range in Hf. lia.
  - exists s'. unfold cycle. by apply bind_raise.
Qed.

(** C10: the two operand reads at [pc + 1] and [pc + 2] come before
    dispatch whatever the instruction is, so a cycle that starts at address
    254 or 255 of the 256-cell memory raises [IndexError] right after
    setting the instruction register, for every instruction byte [v], the
    operand-less halt included, and the run loop ends with that exception. *)
Theorem operand_read_past_memory s v :
  length (ram s) = 256%nat ->
  pc s = 254 \/ pc s = 255 ->
  ram_read (pc s) s = Val v s ->
  cycle s = Raise IndexError (with_ir v s) /\
  (halted s = false ->
   forall fuel, run (S fuel) s = Some (Raise IndexError (with_ir v s))).
Proof.
  intros Hlen Hpc Hv.
  assert (Hc : cycle s = Raise IndexError (with_ir v s)).
  { unfold cycle. apply bind_raise.
    unfold fetch. rewrite (bind_val _ _ s (pc s) s) by done.
    rewrite (bind_val _ _ _ _ _ Hv).
    rewrite (bind_val _ _ s tt (with_ir v s)) by done.
    rewrite (bind_val _ _ (with_ir v s) v (with_ir v s)) by done.
    rewrite (bind_val _ _ (with_ir v s) (pc s) (with_ir v s)) by done.
    assert (Hout : forall j, 256 <= j ->
              ram_read j (with_ir v s) = Raise IndexError (with_ir v s)).
    { intros j Hj. apply ram_read_out_of_range. simpl. lia. }
    destruct Hpc as [Hpc|Hpc].
    - destruct (ram_read_cases (pc s + 1) (with_ir v s)) as [[a Ha]|Ha];
        [|by apply bind_raise].
      rewrite (bind_val _ _ _ _ _ Ha).
      rewrite (bind_val _ _ (with_ir v s) (pc s) (with_ir v s)) by done.
      apply bind_raise, Hout. lia.
    - apply bind_raise, Hout. lia. }
  split; [done|]. intros Hh fuel. by apply run_raise.
Qed.

Lemma operand_read_past_memory_witness :
  cycle hlt_at_254 = Raise IndexError (with_ir HLT hlt_at_254) /\
  (halted hlt_at_254 = false ->
   forall fuel, run (S fuel) hlt_at_254
                = Some (Raise IndexError (with_ir HLT hlt_at_254))).
Proof.
  apply (operand_read_past_memory hlt_at_254 HLT);
    [reflexivity | left; reflexivity | reflexivity].
Defined.

(** C3, as stated, fails: two cycles from the initial state of a machine
    loaded with byte-valued memory leave the program counter at -1, outside
    [0, 255]. *)
Lemma pc_leaves_byte_range :
  pc not_jmp_state = 0 /\
  byte_valued (ram not_jmp_state) /\
  exists s', cycles 2 not_jmp_state = Val tt s' /\
             pc s' = -1 /\ ~ (0 <= pc s' <= 255).
Proof.
  split; [reflexivity|]. split.
  - apply (bool_decide_unpack (Forall (fun v => 0 <= v < 256) (ram not_jmp_state))).
    by vm_compute.
  - eexists. split; [by vm_compute|]. simpl. lia.
Qed.

Example pc_leaves_byte_range_above :
  exists s', cycles 4 (image [LDI; 0; 255; LDI; 1; 1; ADD; 0; 1; JMP; 0])
             = Val tt s' /\ pc s' = 256.
Proof. eexists. split; by vm_compute. Qed.

Lemma cycle_returns_fetch s :
  (exists s', cycle s = Val tt s' \/ cycle s = Exit s') ->
  exists x s0, fetch s = Val x s0.
Proof.
  intros [s' Hc]. destruct (fetch_cases s) as [(i & a & b & Hf)|[s1 Hf]]; [eauto|].
  unfold cycle in Hc. rewrite (bind_raise _ _ _ _ _ Hf) in Hc.
  destruct Hc; discriminate.
Qed.

(** C3, amended: the program counter is 0 in the initial state, and a
    cycle that starts with it outside [-256, 253] (where [pc], [pc + 1] or
    [pc + 2] is no index of the 256-cell memory) raises [IndexError]; so
    every cycle that returns or exits was fetched at a program counter in
    [-256, 253].  Nothing reduces the value the cycle leaves. *)
Theorem pc_range_of_executed_cycles s :
  length (ram s) = 256%nat ->
  pc CPU_init = 0 /\
  (pc s < -256 \/ 253 < pc s -> exists s', cycle s = Raise IndexError s') /\
  (forall s', cycle s = Val tt s' \/ cycle s = Exit s' -> -256 <= pc s <= 253).
Proof.
  intros Hlen. split; [reflexivity|]. split.
  - intros Hr. apply cycle_fetch_raise. rewrite Hlen. lia.
  - intros s' Hc.
    destruct (cycle_returns_fetch s (ex_intro _ s' Hc)) as (x & s0 & Hf).
    apply fetch_val_range in Hf. rewrite Hlen in Hf. lia.
Qed.

Lemma pc_range_of_executed_cycles_witness :
  pc CPU_init = 0 /\
  (pc (image [HLT]) < -256 \/ 253 < pc (image [HLT]) ->
   exists s', cycle (image [HLT]) = Raise IndexError s') /\
  (forall s', cycle (image [HLT]) = Val tt s' \/ cycle (image [HLT]) = Exit s' ->
              -256 <= pc (image [HLT]) <= 253).
Proof. apply (pc_range_of_executed_cycles (image [HLT])). reflexivity. Defined.

Example halt_only_program :
  run 1 (image [HLT]) = Some (Exit (with_halted true (with_ir HLT (image [HLT])))).
Proof. by vm_compute. Qed.

(** ** The script *)

(** C2 fails on the code: with a program file that does not exist, [load]
    prints the message and returns, and the script goes on to [cpu.run()],
    whose first cycle fetches the byte 0 of the empty memory and dies with
    [KeyError] in the dictionary lookup. *)
Theorem missing_file_still_runs int_strip_2 fuel :
  load int_strip_2 (fun _ => None) "missing.ls8" CPU_init
  = Val tt (with_stdout [OutStr "File not found."] CPU_init) /\
  cycle (with_stdout [OutStr "File not found."] CPU_init)
  = Raise KeyError (with_stdout [OutStr "File not found."] CPU_init) /\
  main int_strip_2 (fun _ => None) missing_argv (S fuel)
  = Some (MainRan (Raise KeyError
                     (with_stdout [OutStr "File not found."] CPU_init))).
Proof.
  assert (Hc : cycle (with_stdout [OutStr "File not found."] CPU_init)
               = Raise KeyError (with_stdout [OutStr "File not found."] CPU_init))
    by by vm_compute.
  split; [reflexivity|]. split; [exact Hc|].
  unfold main, missing_argv, load. simpl negb. cbv iota.
  change (print (OutStr "File not found.") CPU_init)
    with (Val tt (with_stdout [OutStr "File not found."] CPU_init)).
  cbv iota.
  by rewrite (run_raise fuel (with_stdout [OutStr "File not found."] CPU_init)
                KeyError _ eq_refl Hc).
Qed.

(** The sibling branch of the script: a wrong argument count prints the
    usage lines and builds no machine. *)
Example wrong_argument_count int_strip_2 fs fuel :
  main int_strip_2 fs ["ls8_sprint.py"%string] fuel
  = Some (MainUsage [OutStr "Wrong number of arguments passed in.";
                     OutList ["ls8_sprint.py"%string]]).
Proof. reflexivity. Qed.

(** * The rest of the instruction set *)

(** ** Bitwise operations and shifts *)

Lemma byte_log2 x : 0 <= x -> (x < 256 <-> Z.log2 x < 8).
Proof.
  intros Hx. destruct (Z.eq_dec x 0) as [->|Hne]; [by split|].
  apply (Z.log2_lt_pow2 x 8). lia.
Qed.

Lemma alu_AND a b : alu AND a b = aug_assign Z.land a b.
Proof. reflexivity. Qed.

Lemma alu_OR a b : alu OR a b = aug_assign Z.lor a b.
Proof. reflexivity. Qed.

Lemma alu_XOR a b : alu XOR a b = aug_assign Z.lxor a b.
Proof. reflexivity. Qed.

Lemma alu_NOT a b :
  alu NOT a b = (x <- reg_get a ; reg_set a (Z.lnot x)).
Proof. reflexivity. Qed.

Lemma alu_SHL a b :
  alu SHL a b =
  (x <- reg_get a ; y <- reg_get b ;
   if y <? 0 then raise ValueError else reg_set a (Z.shiftl x y)).
Proof. reflexivity. Qed.

Lemma alu_SHR a b :
  alu SHR a b =
  (x <- reg_get a ; y <- reg_get b ;
   if y <? 0 then raise ValueError else reg_set a (Z.shiftr x y)).
Proof. reflexivity. Qed.

(** X1: on 8-bit register values the bitwise and, or and xor opcodes store
    the bitwise combination in reg[a], change nothing else, and the stored
    value is again an 8-bit value. *)
Theorem alu_bitwise_stays_byte s a b ra rb :
  0 <= a < 8 -> 0 <= b < 8 ->
  reg s !! Z.to_nat a = Some ra -> reg s !! Z.to_nat b = Some rb ->
  0 <= ra < 256 -> 0 <= rb < 256 ->
  (exists s', alu AND a b s = Val tt s' /\
              updates_only_reg s s' (Z.to_nat a) (Z.land ra rb) /\
              0 <= Z.land ra rb < 256) /\
  (exists s', alu OR a b s = Val tt s' /\
              updates_only_reg s s' (Z.to_nat a) (Z.lor ra rb) /\
              0 <= Z.lor ra rb < 256) /\
  (exists s', alu XOR a b s = Val tt s' /\
              updates_only_reg s s' (Z.to_nat a) (Z.lxor ra rb) /\
              0 <= Z.lxor ra rb < 256).
Proof.
  intros Ha Hb Hra Hrb Bra Brb.
  assert (Hlt : (Z.to_nat a < length (reg s))%nat) by by eapply lookup_lt_Some.
  assert (La : Z.log2 ra < 8) by (apply byte_log2; lia).
  assert (Lb : Z.log2 rb < 8) by (apply byte_log2; lia).
  split; [|split].
  - eexists. split; [|split].
    + rewrite alu_AND. apply (aug_assign_nonneg Z.land s a b ra rb); lia || done.
    + by apply with_reg_insert_updates.
    + assert (H0 : 0 <= Z.land ra rb) by (apply Z.land_nonneg; lia).
      split; [done|]. apply byte_log2; [done|].
      pose proof (Z.log2_land ra rb ltac:(lia) ltac:(lia)). lia.
  - eexists. split; [|split].
    + rewrite alu_OR. apply (aug_assign_nonneg Z.lor s a b ra rb); lia || done.
    + by apply with_reg_insert_updates.
    + assert (H0 : 0 <= Z.lor ra rb) by (apply Z.lor_nonneg; lia).
      split; [done|]. apply byte_log2; [done|].
      rewrite Z.log2_lor by lia. lia.
  - eexists. split; [|split].
    + rewrite alu_XOR. apply (aug_assign_nonneg Z.lxor s a b ra rb); lia || done.
    + by apply with_reg_insert_updates.
    + assert (H0 : 0 <= Z.lxor ra rb) by (apply Z.lxor_nonneg; lia).
      split; [done|]. apply byte_log2; [done|].
      pose proof (Z.log2_lxor ra rb ltac:(lia) ltac:(lia)). lia.
Qed.

Lemma alu_bitwise_stays_byte_witness :
  exists s', alu XOR 0 7 mod_state = Val tt s' /\
             updates_only_reg mod_state s' 0 (Z.lxor 7 0xF4) /\
             0 <= Z.lxor 7 0xF4 < 256.
Proof.
  apply (alu_bitwise_stays_byte mod_state 0 7 7 0xF4); (lia || reflexivity).
Defined.

(** X2: bitwise not stores -v-1 for the old value v of reg[a] (so a
    negative number whenever v is an 8-bit value, not the 8-bit complement
    255 - v), changes nothing else, and a second not restores the register
    file. *)
Theorem alu_not_involutive s a b b' ra :
  0 <= a < 8 ->
  reg s !! Z.to_nat a = Some ra ->
  exists s1,
    alu NOT a b s = Val tt s1 /\
    updates_only_reg s s1 (Z.to_nat a) (- ra - 1) /\
    (0 <= ra -> - ra - 1 < 0) /\
    alu NOT a b' s1 = Val tt s.
Proof.
  intros Ha Hra.
  assert (Hlt : (Z.to_nat a < length (reg s))%nat) by by eapply lookup_lt_Some.
  assert (Hga : reg_get a s = Val ra s) by (apply reg_get_nonneg; lia || done).
  set (s1 := with_reg (<[Z.to_nat a := - ra - 1]> (reg s)) s).
  assert (Hga1 : reg_get a s1 = Val (- ra - 1) s1).
  { apply reg_get_nonneg; [lia|]. by apply list_lookup_insert_eq. }
  exists s1. split; [|split; [|split]].
  - rewrite alu_NOT, (bind_val _ _ _ _ _ Hga), Z.lnot_eq_pred_opp.
    apply reg_set_nonneg; lia || done.
  - by apply with_reg_insert_updates.
  - lia.
  - rewrite alu_NOT, (bind_val _ _ _ _ _ Hga1), Z.lnot_eq_pred_opp.
    rewrite reg_set_nonneg by (simpl; rewrite ?length_insert; lia || done).
    f_equal. subst s1. destruct s as [rg p i f rm h o]; unfold with_reg; simpl in *.
    f_equal. rewrite list_insert_insert_eq.
    replace (- (- ra - 1) - 1) with ra by lia. by apply list_insert_id.
Qed.

Lemma alu_not_involutive_witness :
  exists s1,
    alu NOT 0 0 mod_state = Val tt s1 /\
    updates_only_reg mod_state s1 (Z.to_nat 0) (- 7 - 1) /\
    (0 <= 7 -> - 7 - 1 < 0) /\
    alu NOT 0 0 s1 = Val tt mod_state.
Proof.
  apply (alu_not_involutive mod_state 0 0 0 7); (lia || reflexivity).
Defined.

(** X3: shift-left stores reg[a] * 2^reg[b] with no reduction to 8 bits,
    shift-right stores the floor of reg[a] / 2^reg[b] (zero once an 8-bit
    value is shifted by 8 or more); a negative count in reg[b] raises
    [ValueError] for both and leaves the machine as it was. *)
Theorem alu_shift s a b ra rb :
  0 <= a < 8 -> 0 <= b < 8 ->
  reg s !! Z.to_nat a = Some ra -> reg s !! Z.to_nat b = Some rb ->
  (0 <= rb ->
     (exists s', alu SHL a b s = Val tt s' /\
                 updates_only_reg s s' (Z.to_nat a) (ra * 2 ^ rb)) /\
     (exists s', alu SHR a b s = Val tt s' /\
                 updates_only_reg s s' (Z.to_nat a) (ra `div` 2 ^ rb)) /\
     (0 <= ra < 256 -> 8 <= rb -> ra `div` 2 ^ rb = 0)) /\
  (rb < 0 ->
     alu SHL a b s = Raise ValueError s /\ alu SHR a b s = Raise ValueError s).
Proof.
  intros Ha Hb Hra Hrb.
  assert (Hlt : (Z.to_nat a < length (reg s))%nat) by by eapply lookup_lt_Some.
  assert (Hga : reg_get a s = Val ra s) by (apply reg_get_nonneg; lia || done).
  assert (Hgb : reg_get b s = Val rb s) by (apply reg_get_nonneg; lia || done).
  split.
  - intros H0.
    assert (Hneg : (rb <? 0) = false) by (apply Z.ltb_ge; lia).
    split; [|split].
    + eexists. split; [|by apply with_reg_insert_updates].
      rewrite alu_SHL, (bind_val _ _ _ _ _ Hga), (bind_val _ _ _ _ _ Hgb), Hneg.
      rewrite <- Z.shiftl_mul_pow2 by done. apply reg_set_nonneg; lia || done.
    + eexists. split; [|by apply with_reg_insert_updates].
      rewrite alu_SHR, (bind_val _ _ _ _ _ Hga), (bind_val _ _ _ _ _ Hgb), Hneg.
      rewrite <- Z.shiftr_div_pow2 by done. apply reg_set_nonneg; lia || done.
    + intros Bra H8. apply Z.div_small. split; [lia|].
      apply Z.lt_le_trans with (2 ^ 8); [lia|].
      apply Z.pow_le_mono_r; lia.
  - intros Hneg%Z.ltb_lt.
    rewrite alu_SHL, alu_SHR, !(bind_val _ _ _ _ _ Hga), !(bind_val _ _ _ _ _ Hgb).
    by rewrite Hneg.
Qed.

Lemma alu_shift_witness :
  (exists s', alu SHL 7 0 mod_state = Val tt s' /\
              updates_only_reg mod_state s' (Z.to_nat 7) (0xF4 * 2 ^ 7)) /\
  (exists s', alu SHR 7 0 mod_state = Val tt s' /\
              updates_only_reg mod_state s' (Z.to_nat 7) (0xF4 `div` 2 ^ 7)) /\
  (0 <= 0xF4 < 256 -> 8 <= 7 -> 0xF4 `div` 2 ^ 7 = 0).
Proof.
  apply (alu_shift mod_state 7 0 0xF4 7); (lia || reflexivity).
Defined.

(** ** Jumps *)

(** X4: jump stores reg[operand] in the program counter; jump-if-equal
    does so exactly when the flags register equals 1 and otherwise adds 2 to
    the program counter; jump-if-not-equal does the opposite, so on every
    state exactly one of the two conditional jumps is taken.  None of them
    changes a register, the flags or the memory. *)
Theorem jumps_follow_equal_flag s a b t :
  0 <= a < 8 ->
  reg s !! Z.to_nat a = Some t ->
  jmp a b s = Val tt (with_pc t s) /\
  jeq a b s = Val tt (with_pc (if fl s =? 1 then t else pc s + 2) s) /\
  jne a b s = Val tt (with_pc (if fl s =? 1 then pc s + 2 else t) s).
Proof.
  intros Ha Ht.
  assert (Hg : reg_get a s = Val t s) by (apply reg_get_nonneg; lia || done).
  split; [|split].
  - unfold jmp. by rewrite (bind_val _ _ _ _ _ Hg).
  - unfold jeq. rewrite (bind_val _ _ s (fl s) s) by done.
    destruct (fl s =? 1); [by rewrite (bind_val _ _ _ _ _ Hg)|done].
  - unfold jne. rewrite (bind_val _ _ s (fl s) s) by done.
    destruct (fl s =? 1); simpl; [done|by rewrite (bind_val _ _ _ _ _ Hg)].
Qed.

Lemma jumps_follow_equal_flag_witness :
  jmp 0 0 call_state = Val tt (with_pc 0x20 call_state) /\
  jeq 0 0 call_state
  = Val tt (with_pc (if fl call_state =? 1 then 0x20 else pc call_state + 2)
              call_state) /\
  jne 0 0 call_state
  = Val tt (with_pc (if fl call_state =? 1 then pc call_state + 2 else 0x20)
              call_state).
Proof.
  apply (jumps_follow_equal_flag call_state 0 0 0x20); (lia || reflexivity).
Defined.

(** What compare leaves in the flags register. *)
Lemma alu_CMP_returns s a b ra rb :
  0 <= a -> 0 <= b ->
  reg s !! Z.to_nat a = Some ra -> reg s !! Z.to_nat b = Some rb ->
  alu CMP a b s
  = Val tt (with_fl (if ra <? rb then 4 else if ra >? rb then 2 else 1) s).
Proof.
  intros Ha Hb Hra Hrb.
  assert (Hga : reg_get a s = Val ra s) by by apply reg_get_nonneg.
  assert (Hgb : reg_get b s = Val rb s) by by apply reg_get_nonneg.
  rewrite alu_CMP, (bind_val _ _ _ _ _ Hga), (bind_val _ _ _ _ _ Hgb).
  destruct (ra <? rb); [done|].
  rewrite (bind_val _ _ _ _ _ Hga), (bind_val _ _ _ _ _ Hgb).
  by destruct (ra >? rb).
Qed.

(** X5: a compare of reg[a] with reg[b] followed by jump-if-equal on
    reg[c] jumps to reg[c] exactly when reg[a] = reg[b] and otherwise moves
    the program counter on by 2; followed by jump-if-not-equal it jumps
    exactly when they differ.  The registers are as before the compare. *)
Theorem cmp_then_conditional_jump s a b c d ra rb t :
  0 <= a < 8 -> 0 <= b < 8 -> 0 <= c < 8 ->
  reg s !! Z.to_nat a = Some ra -> reg s !! Z.to_nat b = Some rb ->
  reg s !! Z.to_nat c = Some t ->
  exists s1,
    alu CMP a b s = Val tt s1 /\
    (exists s2, jeq c d s1 = Val tt s2 /\
                pc s2 = (if ra =? rb then t else pc s + 2) /\ reg s2 = reg s) /\
    (exists s2, jne c d s1 = Val tt s2 /\
                pc s2 = (if ra =? rb then pc s + 2 else t) /\ reg s2 = reg s).
Proof.
  intros Ha Hb Hc Hra Hrb Ht.
  pose proof (alu_CMP_returns s a b ra rb (proj1 Ha) (proj1 Hb) Hra Hrb) as Hcmp.
  eexists. split; [exact Hcmp|].
  set (s1 := with_fl _ s) in *.
  destruct (jumps_follow_equal_flag s1 c d t Hc Ht) as (_ & Hjeq & Hjne).
  assert (Heq : (fl s1 =? 1) = (ra =? rb)).
  { subst s1; simpl.
    destruct (Z.ltb_spec ra rb), (Z.gtb_spec ra rb), (Z.eqb_spec ra rb);
      try lia; done. }
  rewrite Heq in Hjeq, Hjne.
  split; eexists; (split; [eassumption|done]).
Qed.

Lemma cmp_then_conditional_jump_witness :
  exists s1,
    alu CMP 1 2 call_state = Val tt s1 /\
    (exists s2, jeq 0 0 s1 = Val tt s2 /\
                pc s2 = (if 0 =? 0 then 0x20 else pc call_state + 2) /\
                reg s2 = reg call_state) /\
    (exists s2, jne 0 0 s1 = Val tt s2 /\
                pc s2 = (if 0 =? 0 then pc call_state + 2 else 0x20) /\
                reg s2 = reg call_state).
Proof.
  apply (cmp_then_conditional_jump call_state 1 2 0 0 0 0 0x20);
    (lia || reflexivity).
Defined.

(** ** Whole cycles and small programs *)

Lemma ram_read_nonneg s i v :
  0 <= i -> ram s !! Z.to_nat i = Some v -> ram_read i s = Val v s.
Proof.
  intros H0 Hl. eapply ram_read_at; [|done].
  apply py_index_nonneg; [done|]. by eapply lookup_lt_Some.
Qed.

(** The cycle at a program counter whose three cells are readable. *)
Lemma cycle_at s i a b :
  0 <= pc s ->
  ram s !! Z.to_nat (pc s) = Some i ->
  ram s !! Z.to_nat (pc s + 1) = Some a ->
  ram s !! Z.to_nat (pc s + 2) = Some b ->
  cycle s = bind (dispatch i a b) (fun _ => advance i) (with_ir i s).
Proof.
  intros H0 Hi Ha Hb. apply cycle_after_fetch. unfold fetch.
  rewrite (bind_val _ _ s (pc s) s) by done.
  rewrite (bind_val _ _ s i s) by by apply ram_read_nonneg.
  rewrite (bind_val _ _ s tt (with_ir i s)) by done.
  rewrite (bind_val _ _ (with_ir i s) i (with_ir i s)) by done.
  rewrite (bind_val _ _ (with_ir i s) (pc s) (with_ir i s)) by done.
  rewrite (bind_val _ _ (with_ir i s) a (with_ir i s))
    by (apply ram_read_nonneg; [simpl; lia|done]).
  rewrite (bind_val _ _ (with_ir i s) (pc s) (with_ir i s)) by done.
  rewrite (bind_val _ _ (with_ir i s) b (with_ir i s))
    by (apply ram_read_nonneg; [simpl; lia|done]).
  done.
Qed.


Lemma run_exit fuel s s' :
  halted s = false -> cycle s = Exit s' -> run (S fuel) s = Some (Exit s').
Proof. intros Hh Hc. simpl. by rewrite Hh, Hc. Qed.

Lemma dispatch_HLT a b : dispatch HLT a b = hlt a b.
Proof. reflexivity. Qed.



(** X6: a cycle that fetches the halt opcode sets the halted flag and
    leaves through [sys.exit] without advancing the program counter: apart
    from the instruction register and the flag the machine is as it was;
    started on such a state, the run loop ends there for any number of
    iterations allowed. *)
Theorem hlt_cycle_exits s :
  length (ram s) = 256%nat ->
  0 <= pc s <= 253 ->
  ram s !! Z.to_nat (pc s) = Some HLT ->
  cycle s = Exit (with_halted true (with_ir HLT s)) /\
  (halted s = false ->
   forall fuel, run (S fuel) s = Some (Exit (with_halted true (with_ir HLT s)))).
Proof.
  intros Hlen Hpc Hi.
  destruct (lookup_lt_is_Some_2 (ram s) (Z.to_nat (pc s + 1))) as [a Ha]; [lia|].
  destruct (lookup_lt_is_Some_2 (ram s) (Z.to_nat (pc s + 2))) as [b Hb]; [lia|].
  assert (Hc : cycle s = Exit (with_halted true (with_ir HLT s))).
  { rewrite (cycle_at s HLT a b) by (lia || done). by rewrite dispatch_HLT. }
  split; [done|]. intros Hh fuel. by apply run_exit.
Qed.

Lemma hlt_cycle_exits_witness :
  cycle (image [HLT]) = Exit (with_halted true (with_ir HLT (image [HLT]))) /\
  (halted (image [HLT]) = false ->
   forall fuel, run (S fuel) (image [HLT])
                = Some (Exit (with_halted true (with_ir HLT (image [HLT]))))).
Proof.
  apply (hlt_cycle_exits (image [HLT])); [reflexivity | simpl; lia | reflexivity].
Defined.




(** ** Loading a program *)

Lemma with_ram_same s : with_ram (ram s) s = s.
Proof. by destruct s. Qed.

(** The loop of [load] from address [n] on: the parsed values overwrite
    the cells [n], [n+1], ... and those that would fall behind the last
    cell are lost. *)
Lemma load_lines_from int_strip_2 lines n s :
  load_lines int_strip_2 lines (Z.of_nat n) s
  = with_ram (take (length (ram s))
                (take n (ram s) ++ parsed_bytes int_strip_2 lines
                 ++ drop (n + length (parsed_bytes int_strip_2 lines)) (ram s))) s.
Proof.
  revert n s. induction lines as [|line rest IH]; intros n s; simpl.
  - rewrite Nat.add_0_r, take_drop, take_ge by done. by rewrite with_ram_same.
  - unfold parsed_bytes; simpl. fold (parsed_bytes int_strip_2 rest).
    destruct (int_strip_2 (before_hash line)) as [x|]; simpl; [|apply IH].
    destruct (decide (n < length (ram s))%nat) as [Hlt|Hge].
    + assert (Hidx : py_index (length (ram s)) (Z.of_nat n) = Some n).
      { rewrite (py_index_nonneg (length (ram s)) (Z.of_nat n)) by lia.
        by rewrite Nat2Z.id. }
      rewrite (ram_write_at s (Z.of_nat n) n x Hidx).
      replace (Z.of_nat n + 1) with (Z.of_nat (S n)) by lia.
      rewrite IH. simpl. rewrite length_insert.
      rewrite (take_S_r _ n x) by by apply list_lookup_insert_eq.
      rewrite take_insert_ge by done.
      rewrite drop_insert_lt by lia.
      unfold with_ram; simpl. f_equal.
      rewrite <- app_assoc. simpl. by rewrite Nat.add_succ_r.
    + assert (Hnone : py_index (length (ram s)) (Z.of_nat n) = None)
        by (apply py_index_range; lia).
      unfold ram_write, py_setitem. rewrite Hnone, IH.
      f_equal. rewrite !(take_ge (ram s) n) by lia.
      by rewrite !take_app_length.
Qed.

(** X8: loading an existing file writes the values of its lines that
    parse, in order, from address 0 on, skips the other lines, and
    silently drops the values that do not fit: the memory keeps its length,
    its first cells are the parsed values (as many as fit) and the cells
    behind them, like the registers, the program counter and the output,
    are untouched. *)
Theorem load_writes_parsed_bytes int_strip_2 fs filename lines s :
  fs filename = Some lines ->
  exists s',
    load int_strip_2 fs filename s = Val tt s' /\
    ram s' = take (length (ram s))
               (parsed_bytes int_strip_2 lines
                ++ drop (length (parsed_bytes int_strip_2 lines)) (ram s)) /\
    length (ram s') = length (ram s) /\
    reg s' = reg s /\ pc s' = pc s /\ fl s' = fl s /\
    halted s' = halted s /\ stdout s' = stdout s.
Proof.
  intros Hfs. unfold load. rewrite Hfs.
  pose proof (load_lines_from int_strip_2 lines 0 s) as H.
  change (Z.of_nat 0) with 0 in H.
  exists (load_lines int_strip_2 lines 0 s). split; [done|].
  rewrite H. simpl.
  split; [done|]. split; [|done].
  rewrite length_take, length_app, length_drop. lia.
Qed.

Lemma load_writes_parsed_bytes_witness :
  exists s',
    load (fun x => if String.eqb x "00000001" then Some 1 else None)
         (fun _ => Some ["00000001#halt"%string; "# no code"%string])
         "prog.ls8" CPU_init = Val tt s' /\
    ram s' = take (length (ram CPU_init))
               (parsed_bytes (fun x => if String.eqb x "00000001" then Some 1 else None)
                  ["00000001#halt"%string; "# no code"%string]
                ++ drop (length (parsed_bytes
                                   (fun x => if String.eqb x "00000001" then Some 1 else None)
                                   ["00000001#halt"%string; "# no code"%string]))
                     (ram CPU_init)) /\
    length (ram s') = length (ram CPU_init) /\
    reg s' = reg CPU_init /\ pc s' = pc CPU_init /\ fl s' = fl CPU_init /\
    halted s' = halted CPU_init /\ stdout s' = stdout CPU_init.
Proof.
  apply (load_writes_parsed_bytes _ _ "prog.ls8"
           ["00000001#halt"%string; "# no code"%string]).
  reflexivity.
Defined.

(** X9: when more values parse than the memory has cells, the memory
    ends up holding exactly the first ones: nothing is raised for the
    rest. *)
Theorem load_drops_overflow int_strip_2 fs filename lines s :
  fs filename = Some lines ->
  (length (ram s) <= length (parsed_bytes int_strip_2 lines))%nat ->
  load int_strip_2 fs filename s
  = Val tt (with_ram (take (length (ram s)) (parsed_bytes int_strip_2 lines)) s).
Proof.
  intros Hfs Hlen. unfold load. rewrite Hfs. unfold modify. f_equal.
  pose proof (load_lines_from int_strip_2 lines 0 s) as H.
  change (Z.of_nat 0) with 0 in H. rewrite H. simpl.
  by rewrite take_app_le.
Qed.

Lemma load_drops_overflow_witness :
  load (fun _ => Some 1) (fun _ => Some ["1"%string; "1"%string; "1"%string])
       "prog.ls8" (with_ram [0; 0] CPU_init)
  = Val tt (with_ram (take (length (ram (with_ram [0; 0] CPU_init)))
                        (parsed_bytes (fun _ => Some 1)
                           ["1"%string; "1"%string; "1"%string]))
              (with_ram [0; 0] CPU_init)).
Proof.
  apply (load_drops_overflow _ _ "prog.ls8" ["1"%string; "1"%string; "1"%string]);
    [reflexivity | simpl; lia].
Defined.

(** X10: the text [load] parses is the line up to its first '#': for a
    text [a] without '#', a comment appended to it is cut off, and a line
    without comment is taken whole. *)
Theorem before_hash_cuts_comment (a b : string) :
  "#"%char ∉ list_ascii_of_string a ->
  before_hash (String.append a (String "#"%char b)) = a /\ before_hash a = a.
Proof.
  induction a as [|c a IH]; simpl; intros Hno; [done|].
  apply not_elem_of_cons in Hno as [Hc Hno].
  destruct (Ascii.eqb_spec c "#"%char) as [->|_]; [done|].
  destruct (IH Hno) as [-> ->]. done.
Qed.

Lemma before_hash_cuts_comment_witness :
  before_hash (String.append "10000010 " (String "#"%char " LDI R0,8")) = "10000010 "%string /\
  before_hash "10000010 " = "10000010 "%string.
Proof.
  apply (before_hash_cuts_comment "10000010 " " LDI R0,8").
  apply (bool_decide_unpack ("#"%char ∉ list_ascii_of_string "10000010 ")).
  by vm_compute.
Defined.

(** ** Memory cells *)

(** X11: a write to an address Python accepts for the memory (from
    minus its length to its length minus one) returns, keeps the length, is
    read back at the same address, and leaves every other cell as it was;
    a write to any other address raises [IndexError] and changes nothing. *)
Theorem ram_write_then_read s i v :
  (- Z.of_nat (length (ram s)) <= i < Z.of_nat (length (ram s)) ->
   exists k s',
     py_index (length (ram s)) i = Some k /\
     ram_write i v s = Val tt s' /\
     ram_read i s' = Val v s' /\
     length (ram s') = length (ram s) /\
     (forall c, c <> k -> ram s' !! c = ram s !! c) /\
     reg s' = reg s /\ pc s' = pc s) /\
  (i < - Z.of_nat (length (ram s)) \/ Z.of_nat (length (ram s)) <= i ->
   ram_write i v s = Raise IndexError s).
Proof.
  split.
  - intros Hr. destruct (py_index (length (ram s)) i) as [k|] eqn:Hk.
    + pose proof (py_index_lt _ _ _ Hk) as Hlt.
      exists k, (with_ram (<[k:=v]> (ram s)) s).
      split; [done|]. split; [by apply ram_write_at|].
      split.
      * apply (ram_read_at _ i k); simpl; [by rewrite length_insert|].
        by apply list_lookup_insert_eq.
      * split; [simpl; apply length_insert|].
        split; [|done]. intros c Hc. simpl. by apply list_lookup_insert_ne.
    + apply py_index_range in Hk. lia.
  - intros Hr%py_index_range. unfold ram_write, py_setitem. by rewrite Hr.
Qed.

Lemma ram_write_then_read_witness :
  exists k s',
    py_index (length (ram CPU_init)) (-1) = Some k /\
    ram_write (-1) 9 CPU_init = Val tt s' /\
    ram_read (-1) s' = Val 9 s' /\
    length (ram s') = length (ram CPU_init) /\
    (forall c, c <> k -> ram s' !! c = ram CPU_init !! c) /\
    reg s' = reg CPU_init /\ pc s' = pc CPU_init.
Proof.
  apply (ram_write_then_read CPU_init (-1) 9). simpl. lia.
Defined.

(** X12: a negative address denotes the cell that many places before the
    end: on a memory of 256 cells the address [i - 256] reads and writes the
    cell of address [i]. *)
Theorem ram_negative_address_aliases s i v :
  length (ram s) = 256%nat ->
  0 <= i < 256 ->
  ram_read (i - 256) s = ram_read i s /\
  ram_write (i - 256) v s = ram_write i v s.
Proof.
  intros Hlen Hi.
  assert (Hidx : py_index (length (ram s)) (i - 256)
                 = py_index (length (ram s)) i).
  { rewrite Hlen. unfold py_index.
    destruct (Z.leb_spec 0 (i - 256)); [lia|].
    destruct (Z.leb_spec 0 i); [|lia].
    destruct (Z.ltb_spec i (Z.of_nat 256)); [|lia].
    destruct (Z.leb_spec (- Z.of_nat 256) (i - 256)); [|lia].
    destruct (Z.ltb_spec (i - 256) 0); [|lia].
    simpl. f_equal. lia. }
  unfold ram_read, ram_write, py_getitem, py_setitem. by rewrite Hidx.
Qed.

Lemma ram_negative_address_aliases_witness :
  ram_read (255 - 256) CPU_init = ram_read 255 CPU_init /\
  ram_write (255 - 256) 1 CPU_init = ram_write 255 1 CPU_init.
Proof.
  apply (ram_negative_address_aliases CPU_init 255 1); [reflexivity | lia].
Defined.

(** ** What a cycle leaves alone *)

Section Keeps.
Context {B : Type} (f : CPU -> B).

Lemma keeps_bind {A C} (m : M A) (k : A -> M C) :
  keeps f m -> (forall a, keeps f (k a)) -> keeps f (bind m k).
Proof.
  intros Hm Hk s b s'. unfold bind.
  destruct (m s) as [a s1| |] eqn:E; [|discriminate..].
  intros H. rewrite (Hk a s1 b s' H). by eapply Hm.
Qed.

Lemma keeps_if {A} (c : bool) (m1 m2 : M A) :
  keeps f m1 -> keeps f m2 -> keeps f (if c then m1 else m2).
Proof. by destruct c. Qed.

Lemma keeps_reg_get i : keeps f (reg_get i).
Proof. intros s a s'. unfold reg_get. case_match; naive_solver. Qed.

Lemma keeps_ram_read i : keeps f (ram_read i).
Proof. intros s a s'. unfold ram_read. case_match; naive_solver. Qed.

Lemma keeps_gets {A} (g : CPU -> A) : keeps f (gets g).
Proof. intros s a s' H. unfold gets in H. by simplify_eq. Qed.

Lemma keeps_pure {A} (x : A) : keeps f (pure x).
Proof. intros s a s' H. unfold pure in H. by simplify_eq. Qed.

Lemma keeps_raise {A} e : keeps f (@raise A e).
Proof. intros s a s'. discriminate. Qed.

Lemma keeps_hlt a b : keeps f (hlt a b).
Proof. intros s x s'. discriminate. Qed.

Lemma keeps_modify g : (forall s, f (g s) = f s) -> keeps f (modify g).
Proof. intros Hg s a s' H. unfold modify in H. simplify_eq. apply Hg. Qed.

(** [f] does not look at what the setters of a cycle change, lengths of
    the two lists apart. *)
Hypothesis Hreg : forall l s, length l = length (reg s) -> f (with_reg l s) = f s.
Hypothesis Hram : forall l s, length l = length (ram s) -> f (with_ram l s) = f s.
Hypothesis Hpc : forall v s, f (with_pc v s) = f s.
Hypothesis Hfl : forall v s, f (with_fl v s) = f s.
Hypothesis Hir : forall v s, f (with_ir v s) = f s.
Hypothesis Hout : forall v s, f (with_stdout v s) = f s.

Lemma keeps_reg_set i v : keeps f (reg_set i v).
Proof.
  intros s a s'. unfold reg_set, py_setitem.
  destruct (py_index (length (reg s)) i); [|discriminate].
  intros H. simplify_eq. apply Hreg, length_insert.
Qed.

Lemma keeps_ram_write i v : keeps f (ram_write i v).
Proof.
  intros s a s'. unfold ram_write, py_setitem.
  destruct (py_index (length (ram s)) i); [|discriminate].
  intros H. simplify_eq. apply Hram, length_insert.
Qed.

Ltac keeps_tac :=
  repeat first
    [ apply keeps_hlt
    | apply keeps_bind; [|intros ?]
    | apply keeps_if
    | apply keeps_reg_get | apply keeps_reg_set
    | apply keeps_ram_read | apply keeps_ram_write
    | apply keeps_gets | apply keeps_pure | apply keeps_raise
    | apply keeps_modify; intros ?;
      first [ apply Hpc | apply Hfl | apply Hir | apply Hout ] ].

Lemma keeps_alu i a b : keeps f (alu i a b).
Proof. unfold alu, aug_assign. keeps_tac. Qed.

Lemma keeps_handlers a b :
  keeps f (call a b) /\ keeps f (jeq a b) /\ keeps f (jmp a b) /\
  keeps f (jne a b) /\ keeps f (ldi a b) /\ keeps f (pop a b) /\
  keeps f (prn a b) /\ keeps f (push a b) /\ keeps f (ret a b).
Proof.
  unfold call, jeq, jmp, jne, ldi, pop, prn, print, push, ret.
  repeat split; keeps_tac.
Qed.

Lemma keeps_dispatch i a b : keeps f (dispatch i a b).
Proof.
  unfold dispatch.
  destruct (is_alu_op i =? 1); [apply keeps_alu|].
  destruct (branchtable !! i) as [h|] eqn:E; [|apply keeps_raise].
  destruct (keeps_handlers a b) as (?&?&?&?&?&?&?&?&?).
  apply branchtable_lookup in E.
  destruct E as [[-> ->]|[[-> ->]|[[-> ->]|[[-> ->]|[[-> ->]|
                 [[-> ->]|[[-> ->]|[[-> ->]|[[-> ->]|[-> ->]]]]]]]]]];
    first [done | apply keeps_hlt].
Qed.

Lemma keeps_cycle : keeps f cycle.
Proof.
  unfold cycle. apply keeps_bind.
  - unfold fetch. keeps_tac.
  - intros [[i a] b]. apply keeps_bind; [apply keeps_dispatch|].
    intros _. unfold advance. keeps_tac.
Qed.

Lemma keeps_cycles n : keeps f (cycles n).
Proof.
  induction n as [|n IH]; simpl; [apply keeps_pure|].
  apply keeps_bind; [apply keeps_cycle|done].
Qed.

End Keeps.

Lemma cycle_keeps_halted : keeps halted cycle.
Proof. by apply keeps_cycle. Qed.

(** X13: the run loop never ends because its condition turns false: a
    cycle that returns leaves the halted flag as it was (the halt handler
    sets it and leaves through [sys.exit] at once), so a run started on a
    machine that is not halted can only end by [sys.exit] or by an
    exception. *)
Theorem run_never_returns_normally fuel s r :
  halted s = false ->
  run fuel s = Some r ->
  (exists s', r = Exit s') \/ (exists e s', r = Raise e s').
Proof.
  revert s. induction fuel as [|fuel IH]; intros s Hh; simpl; rewrite Hh;
    [discriminate|].
  destruct (cycle s) as [[] s1|s1|e s1] eqn:Hc; [|intros [= <-]; eauto..].
  apply IH. by rewrite (cycle_keeps_halted _ _ _ Hc).
Qed.

Lemma run_never_returns_normally_witness :
  (exists s', Raise KeyError zero_state = @Exit unit s') \/
  (exists e s', Raise KeyError zero_state = @Raise unit e s').
Proof.
  apply (run_never_returns_normally 1 zero_state); by vm_compute.
Defined.

(** X14: however many cycles return, the register file and the memory
    keep their lengths: no instruction adds or removes a register or a
    memory cell. *)
Theorem cycles_keep_sizes n s s' :
  cycles n s = Val tt s' ->
  length (reg s') = length (reg s) /\ length (ram s') = length (ram s).
Proof.
  intros H. split.
  - by apply (keeps_cycles (fun s => length (reg s))) in H.
  - by apply (keeps_cycles (fun s => length (ram s))) in H.
Qed.

Lemma cycles_keep_sizes_witness :
  length (reg (with_pc 8 (with_ir JMP (with_reg [8; 0; 0; 0; 0; 0; 0; 0xF4]
                                         ldi_jmp_state))))
  = length (reg ldi_jmp_state) /\
  length (ram (with_pc 8 (with_ir JMP (with_reg [8; 0; 0; 0; 0; 0; 0; 0xF4]
                                         ldi_jmp_state))))
  = length (ram ldi_jmp_state).
Proof.
  apply (cycles_keep_sizes 2 ldi_jmp_state). by vm_compute.
Defined.

(** ** More on the stack *)

(** X15: the stack is last-in first-out: pushing register a, pushing
    register b, popping into a and popping into b exchanges the two
    registers, and the stack pointer and every other register end as they
    began. *)
Theorem push_push_pop_pop_swaps s a b x ra rb sp :
  0 <= a < 7 -> 0 <= b < 7 -> a <> b ->
  reg s !! Z.to_nat a = Some ra -> reg s !! Z.to_nat b = Some rb ->
  reg s !! 7%nat = Some sp ->
  2 <= sp <= Z.of_nat (length (ram s)) ->
  exists s',
    (_ <- push a x ; _ <- push b x ; _ <- pop a x ; pop b x) s = Val tt s' /\
    reg s' = <[Z.to_nat a := rb]> (<[Z.to_nat b := ra]> (reg s)) /\
    reg s' !! 7%nat = Some sp.
Proof.
  intros Ha Hb Hab Hra Hrb Hsp Hrange.
  assert (Ha7 : Z.to_nat a <> 7%nat) by lia.
  assert (Hb7 : Z.to_nat b <> 7%nat) by lia.
  assert (Hab' : Z.to_nat a <> Z.to_nat b) by lia.
  assert (H7 : (7 < length (reg s))%nat) by by eapply lookup_lt_Some.
  assert (Hla : (Z.to_nat a < length (reg s))%nat) by by eapply lookup_lt_Some.
  assert (Hlb : (Z.to_nat b < length (reg s))%nat) by by eapply lookup_lt_Some.
  set (k1 := Z.to_nat (sp - 1)). set (k2 := Z.to_nat (sp - 1 - 1)).
  assert (Hk : k1 <> k2) by lia.
  (* push a *)
  set (s1 := after_push s sp k1 ra).
  assert (P1 : push a x s = Val tt s1).
  { apply push_returns; [lia|done| |].
    - apply py_index_nonneg; lia.
    - by rewrite list_lookup_insert_ne. }
  (* push b *)
  set (s2 := after_push s1 (sp - 1) k2 rb).
  assert (P2 : push b x s1 = Val tt s2).
  { apply push_returns; [lia| | |].
    - by apply list_lookup_insert_eq.
    - simpl. rewrite length_insert. apply py_index_nonneg; lia.
    - simpl. by rewrite !list_lookup_insert_ne. }
  (* pop a *)
  set (s3 := with_reg (<[7%nat := sp - 1 - 1 + 1]>
                         (<[Z.to_nat a := rb]> (reg s2))) s2).
  assert (P3 : pop a x s2 = Val tt s3).
  { apply (pop_returns s2 a x (sp - 1 - 1) k2 rb); simpl.
    - lia.
    - by rewrite !length_insert.
    - apply list_lookup_insert_eq. by rewrite length_insert.
    - rewrite !length_insert. apply py_index_nonneg; lia.
    - apply list_lookup_insert_eq. rewrite length_insert. lia.
    - rewrite list_lookup_insert_ne by done.
      apply list_lookup_insert_eq. by rewrite length_insert. }
  (* pop b *)
  set (s4 := with_reg (<[7%nat := sp - 1 - 1 + 1 + 1]>
                         (<[Z.to_nat b := ra]> (reg s3))) s3).
  assert (P4 : pop b x s3 = Val tt s4).
  { apply (pop_returns s3 b x (sp - 1 - 1 + 1) k1 ra); simpl.
    - lia.
    - by rewrite !length_insert.
    - apply list_lookup_insert_eq. by rewrite !length_insert.
    - rewrite !length_insert. replace (sp - 1 - 1 + 1) with (sp - 1) by lia.
      apply py_index_nonneg; lia.
    - rewrite list_lookup_insert_ne by done.
      apply list_lookup_insert_eq. lia.
    - rewrite list_lookup_insert_ne by done.
      apply list_lookup_insert_eq. by rewrite !length_insert. }
  exists s4. split.
  - rewrite (bind_val _ _ _ _ _ P1), (bind_val _ _ _ _ _ P2).
    by rewrite (bind_val _ _ _ _ _ P3).
  - assert (Hreg : reg s4 = <[Z.to_nat a := rb]> (<[Z.to_nat b := ra]> (reg s))).
    { simpl. replace (sp - 1 - 1 + 1 + 1) with sp by lia.
      apply list_eq. intros i.
      destruct (decide (i = 7%nat)) as [->|Hi7].
      - rewrite list_lookup_insert_eq by by rewrite !length_insert.
        by rewrite !list_lookup_insert_ne.
      - rewrite (list_lookup_insert_ne _ 7 i) by done.
        destruct (decide (i = Z.to_nat b)) as [->|Hib].
        + rewrite list_lookup_insert_eq by by rewrite !length_insert.
          rewrite list_lookup_insert_ne by done.
          by rewrite list_lookup_insert_eq.
        + rewrite (list_lookup_insert_ne _ (Z.to_nat b) i) by done.
          rewrite (list_lookup_insert_ne _ 7 i) by done.
          destruct (decide (i = Z.to_nat a)) as [->|Hia].
          * rewrite !list_lookup_insert_eq; [done|by rewrite length_insert|].
            by rewrite !length_insert.
          * by rewrite !list_lookup_insert_ne. }
    split; [done|]. rewrite Hreg. by rewrite !list_lookup_insert_ne.
Qed.

Lemma push_push_pop_pop_swaps_witness :
  exists s',
    (_ <- push 0 0 ; _ <- push 1 0 ; _ <- pop 0 0 ; pop 1 0) wrap_state
    = Val tt s' /\
    reg s' = <[Z.to_nat 0 := 100]> (<[Z.to_nat 1 := 200]> (reg wrap_state)) /\
    reg s' !! 7%nat = Some 0xF4.
Proof.
  apply (push_push_pop_pop_swaps wrap_state 0 1 0 200 100 0xF4);
    (simpl; lia) || reflexivity.
Defined.

(** X16: when SP - 1 is no index of the memory, push and call raise
    [IndexError] with the stack pointer already lowered: register 7 holds
    SP - 1 in the state the exception leaves, the memory and the program
    counter are untouched. *)
Theorem stack_write_out_of_range s r x sp v :
  0 <= r < 8 ->
  reg s !! 7%nat = Some sp ->
  <[7%nat := sp - 1]> (reg s) !! Z.to_nat r = Some v ->
  sp - 1 < - Z.of_nat (length (ram s)) \/ Z.of_nat (length (ram s)) <= sp - 1 ->
  push r x s = Raise IndexError (with_reg (<[7%nat := sp - 1]> (reg s)) s) /\
  call r x s = Raise IndexError (with_reg (<[7%nat := sp - 1]> (reg s)) s).
Proof.
  intros Hr Hsp Hv Hout.
  assert (H7 : (7 < length (reg s))%nat) by by eapply lookup_lt_Some.
  set (s1 := with_reg (<[7%nat := sp - 1]> (reg s)) s).
  assert (Hsp1 : reg s1 !! 7%nat = Some (sp - 1))
    by by apply list_lookup_insert_eq.
  assert (Hw : forall w, ram_write (sp - 1) w s1 = Raise IndexError s1).
  { intros w. apply py_index_range in Hout.
    unfold ram_write, py_setitem. simpl. by rewrite Hout. }
  split.
  - unfold push.
    rewrite (bind_val _ _ _ _ _ (reg_get_SP s sp Hsp)).
    rewrite (bind_val _ _ _ _ _ (reg_set_SP s sp (sp - 1) Hsp)).
    rewrite (bind_val _ _ _ _ _ (reg_get_SP s1 _ Hsp1)).
    rewrite (bind_val _ _ s1 v s1) by (apply reg_get_nonneg; [lia|done]).
    apply Hw.
  - unfold call.
    rewrite (bind_val _ _ _ _ _ (reg_get_SP s sp Hsp)).
    rewrite (bind_val _ _ _ _ _ (reg_set_SP s sp (sp - 1) Hsp)).
    rewrite (bind_val _ _ _ _ _ (reg_get_SP s1 _ Hsp1)).
    rewrite (bind_val _ _ s1 (pc s) s1) by done.
    apply bind_raise, Hw.
Qed.

Lemma stack_write_out_of_range_witness :
  push 0 0 low_sp_state
  = Raise IndexError (with_reg (<[7%nat := -256 - 1]> (reg low_sp_state)) low_sp_state) /\
  call 0 0 low_sp_state
  = Raise IndexError (with_reg (<[7%nat := -256 - 1]> (reg low_sp_state)) low_sp_state).
Proof.
  apply (stack_write_out_of_range low_sp_state 0 0 (-256) 5);
    [lia | reflexivity | reflexivity | simpl; lia].
Defined.

(** ** Register indices *)

Lemma reg_get_out_of_range s r :
  r < - Z.of_nat (length (reg s)) \/ Z.of_nat (length (reg s)) <= r ->
  reg_get r s = Raise IndexError s.
Proof.
  intros H%py_index_range. unfold reg_get, py_getitem. by rewrite H.
Qed.

(** X17: an operand that is no index of the register file (below minus
    its length or from its length on) makes load-immediate, print, jump and
    every ALU operation other than modulo raise [IndexError] before anything
    is changed. *)
Theorem register_index_out_of_range s r b :
  r < - Z.of_nat (length (reg s)) \/ Z.of_nat (length (reg s)) <= r ->
  ldi r b s = Raise IndexError s /\
  prn r b s = Raise IndexError s /\
  jmp r b s = Raise IndexError s /\
  (forall i, i ∈ alu_opcodes -> i <> MOD -> alu i r b s = Raise IndexError s).
Proof.
  intros Hr. pose proof (reg_get_out_of_range s r Hr) as Hg.
  split; [|split; [|split]].
  - apply py_index_range in Hr. unfold ldi, reg_set, py_setitem. by rewrite Hr.
  - unfold prn. by apply bind_raise.
  - unfold jmp. by apply bind_raise.
  - intros i Hi Hmod. unfold alu_opcodes in Hi.
    repeat (apply elem_of_cons in Hi as [->|Hi]);
      try (by apply elem_of_nil in Hi); try done;
      by apply (bind_raise (reg_get r) _ s IndexError s).
Qed.

Lemma register_index_out_of_range_witness :
  ldi 8 0 CPU_init = Raise IndexError CPU_init /\
  prn 8 0 CPU_init = Raise IndexError CPU_init /\
  jmp 8 0 CPU_init = Raise IndexError CPU_init /\
  (forall i, i ∈ alu_opcodes -> i <> MOD ->
             alu i 8 0 CPU_init = Raise IndexError CPU_init).
Proof.
  apply (register_index_out_of_range CPU_init 8 0). right. simpl. lia.
Defined.

(** ** Relations every cycle respects *)

Section Steps.
Context (R : CPU -> CPU -> Prop).
Hypothesis Rrefl : forall s, R s s.
Hypothesis Rtrans : forall s1 s2 s3, R s1 s2 -> R s2 s3 -> R s1 s3.
Hypothesis Rreg : forall l s, R s (with_reg l s).
Hypothesis Rram : forall l s, R s (with_ram l s).
Hypothesis Rpc : forall v s, R s (with_pc v s).
Hypothesis Rir : forall v s, R s (with_ir v s).
Hypothesis Rfl : forall v s, v = 1 \/ v = 2 \/ v = 4 -> R s (with_fl v s).
Hypothesis Rout : forall o s, R s (with_stdout (stdout s ++ [o]) s).

Lemma steps_bind {A C} (m : M A) (k : A -> M C) :
  steps R m -> (forall a, steps R (k a)) -> steps R (bind m k).
Proof.
  intros Hm Hk s b s'. unfold bind.
  destruct (m s) as [a s1| |] eqn:E; [|discriminate..].
  intros Hks. eapply Rtrans; [by eapply Hm|by eapply Hk].
Qed.

Lemma steps_if {A} (c : bool) (m1 m2 : M A) :
  steps R m1 -> steps R m2 -> steps R (if c then m1 else m2).
Proof. by destruct c. Qed.

Lemma steps_reg_get i : steps R (reg_get i).
Proof.
  intros s a s'. unfold reg_get. case_match; [|discriminate].
  intros ?. simplify_eq. apply Rrefl.
Qed.

Lemma steps_ram_read i : steps R (ram_read i).
Proof.
  intros s a s'. unfold ram_read. case_match; [|discriminate].
  intros ?. simplify_eq. apply Rrefl.
Qed.

Lemma steps_reg_set i v : steps R (reg_set i v).
Proof.
  intros s a s'. unfold reg_set. case_match; [|discriminate].
  intros ?. simplify_eq. apply Rreg.
Qed.

Lemma steps_ram_write i v : steps R (ram_write i v).
Proof.
  intros s a s'. unfold ram_write. case_match; [|discriminate].
  intros ?. simplify_eq. apply Rram.
Qed.

Lemma steps_gets {A} (g : CPU -> A) : steps R (gets g).
Proof. intros s a s' H. unfold gets in H. simplify_eq. apply Rrefl. Qed.

Lemma steps_pure {A} (x : A) : steps R (pure x).
Proof. intros s a s' H. unfold pure in H. simplify_eq. apply Rrefl. Qed.

Lemma steps_raise {A} e : steps R (@raise A e).
Proof. intros s a s'. discriminate. Qed.

Lemma steps_hlt a b : steps R (hlt a b).
Proof. intros s x s'. discriminate. Qed.

Lemma steps_modify g : (forall s, R s (g s)) -> steps R (modify g).
Proof. intros Hg s a s' H. unfold modify in H. simplify_eq. apply Hg. Qed.

Ltac steps_tac :=
  repeat first
    [ apply steps_hlt
    | apply steps_bind; [|intros ?]
    | apply steps_if
    | apply steps_reg_get | apply steps_reg_set
    | apply steps_ram_read | apply steps_ram_write
    | apply steps_gets | apply steps_pure | apply steps_raise
    | apply steps_modify; intros ?;
      first [ apply Rpc | apply Rir | apply Rout | apply Rfl; tauto ] ].

Lemma steps_alu i a b : steps R (alu i a b).
Proof. unfold alu, aug_assign. steps_tac. Qed.

Lemma steps_handlers a b :
  steps R (call a b) /\ steps R (jeq a b) /\ steps R (jmp a b) /\
  steps R (jne a b) /\ steps R (ldi a b) /\ steps R (pop a b) /\
  steps R (prn a b) /\ steps R (push a b) /\ steps R (ret a b).
Proof.
  unfold call, jeq, jmp, jne, ldi, pop, prn, print, push, ret.
  repeat split; steps_tac.
Qed.

Lemma steps_dispatch i a b : steps R (dispatch i a b).
Proof.
  unfold dispatch.
  destruct (is_alu_op i =? 1); [apply steps_alu|].
  destruct (branchtable !! i) as [h|] eqn:E; [|apply steps_raise].
  destruct (steps_handlers a b) as (?&?&?&?&?&?&?&?&?).
  apply branchtable_lookup in E.
  destruct E as [[-> ->]|[[-> ->]|[[-> ->]|[[-> ->]|[[-> ->]|
                 [[-> ->]|[[-> ->]|[[-> ->]|[[-> ->]|[-> ->]]]]]]]]]];
    first [done | apply steps_hlt].
Qed.

Lemma steps_cycle : steps R cycle.
Proof.
  unfold cycle. apply steps_bind.
  - unfold fetch. steps_tac.
  - intros [[i a] b]. apply steps_bind; [apply steps_dispatch|].
    intros _. unfold advance. steps_tac.
Qed.

Lemma steps_cycles n : steps R (cycles n).
Proof.
  induction n as [|n IH]; simpl; [apply steps_pure|].
  apply steps_bind; [apply steps_cycle|done].
Qed.

End Steps.

(** X18: the flags register only ever receives one of the three
    condition bits: after any number of cycles that return it either still
    holds the value it started with or holds exactly 1, 2 or 4; from the
    initial 0 it is therefore always one of 0, 1, 2, 4. *)
Theorem cycles_flags_one_bit n s s' :
  cycles n s = Val tt s' ->
  (fl s' = fl s \/ fl s' = 1 \/ fl s' = 2 \/ fl s' = 4) /\
  (fl s = 0 -> fl s' = 0 \/ fl s' = 1 \/ fl s' = 2 \/ fl s' = 4).
Proof.
  intros H.
  assert (Hstep : flags_step s s').
  { apply (steps_cycles flags_step) in H; try done; unfold flags_step; simpl;
      try tauto; intros; lia. }
  split; [exact Hstep|]. unfold flags_step in Hstep. lia.
Qed.

Lemma cycles_flags_one_bit_witness :
  (fl (with_pc 8 (with_ir JMP (with_reg [8; 0; 0; 0; 0; 0; 0; 0xF4] ldi_jmp_state)))
   = fl ldi_jmp_state \/
   fl (with_pc 8 (with_ir JMP (with_reg [8; 0; 0; 0; 0; 0; 0; 0xF4] ldi_jmp_state))) = 1 \/
   fl (with_pc 8 (with_ir JMP (with_reg [8; 0; 0; 0; 0; 0; 0; 0xF4] ldi_jmp_state))) = 2 \/
   fl (with_pc 8 (with_ir JMP (with_reg [8; 0; 0; 0; 0; 0; 0; 0xF4] ldi_jmp_state))) = 4) /\
  (fl ldi_jmp_state = 0 ->
   fl (with_pc 8 (with_ir JMP (with_reg [8; 0; 0; 0; 0; 0; 0; 0xF4] ldi_jmp_state))) = 0 \/
   fl (with_pc 8 (with_ir JMP (with_reg [8; 0; 0; 0; 0; 0; 0; 0xF4] ldi_jmp_state))) = 1 \/
   fl (with_pc 8 (with_ir JMP (with_reg [8; 0; 0; 0; 0; 0; 0; 0xF4] ldi_jmp_state))) = 2 \/
   fl (with_pc 8 (with_ir JMP (with_reg [8; 0; 0; 0; 0; 0; 0; 0xF4] ldi_jmp_state))) = 4).
Proof.
  apply (cycles_flags_one_bit 2 ldi_jmp_state). by vm_compute.
Defined.

(** X19: output is only ever appended: after any number of cycles that
    return, what had been printed before is a prefix of what has been
    printed. *)
Theorem cycles_output_grows n s s' :
  cycles n s = Val tt s' -> exists more, stdout s' = stdout s ++ more.
Proof.
  intros H. apply (steps_cycles output_step) in H; [done|..];
    unfold output_step; simpl.
  - intros s0. exists []. by rewrite app_nil_r.
  - intros s1 s2 s3 [m1 H1] [m2 H2]. exists (m1 ++ m2).
    by rewrite H2, H1, app_assoc.
  - intros _ s0. exists []. by rewrite app_nil_r.
  - intros _ s0. exists []. by rewrite app_nil_r.
  - intros _ s0. exists []. by rewrite app_nil_r.
  - intros _ s0. exists []. by rewrite app_nil_r.
  - intros _ s0 _. exists []. by rewrite app_nil_r.
  - intros o s0. by exists [o].
Qed.

Lemma cycles_output_grows_witness :
  exists more,
    stdout (with_pc 8 (with_ir JMP (with_reg [8; 0; 0; 0; 0; 0; 0; 0xF4] ldi_jmp_state)))
    = stdout ldi_jmp_state ++ more.
Proof.
  apply (cycles_output_grows 2 ldi_jmp_state). by vm_compute.
Defined.
